(** * presiongpu: rolling 60-second window of GPU samples

    A shallow embedding of [presiongpu.py].  The script keeps three module-level
    deques in lockstep (timestamps, processor load, memory load), trims them to
    the visible window, derives the bar positions and the bar width, colours
    every bar from green to red, and logs every sample to a CSV file.

    Numbers.  The script computes with Python floats.  Here a float is an
    exact rational of [Q]: comparisons, subtraction, division and the mean are
    the exact ones, so rounding to binary64, infinities and NaN are outside
    the model.  Integers stay in [Z]. *)

From Stdlib Require Import String Ascii Decimal DecimalString DecimalN QArith Qabs Qround ZArith List Bool Lia Lqa.
Import ListNotations.

Open Scope Q_scope.

(** ** Numbers as the script uses them *)

(** [a < b] on floats, as a boolean. *)
Definition Qltb (a b : Q) : bool := negb (Qle_bool b a).

(** Python's [min(a, b)]: the first argument unless the second is smaller. *)
Definition py_min (a b : Q) : Q := if Qltb b a then b else a.

(** Python's [max(a, b)]: the first argument unless the second is larger. *)
Definition py_max (a b : Q) : Q := if Qltb a b then b else a.

(** Python's [sum]: a left fold of [+] from [0]. *)
Definition py_sum (l : list Q) : Q := fold_left Qplus l 0.

(** ** Configuration block (lines 26-30) *)

Record config : Type := {
  GPU_INDEX : Z;
  INTERVALO_MUESTREO : Q;
  VENTANA_SEGUNDOS : Q;
  RUTA_CSV : string
}.

(** The values the script ships with. *)
Definition CONFIGURACION : config := {|
  GPU_INDEX := 0;
  INTERVALO_MUESTREO := 1 # 2;
  VENTANA_SEGUNDOS := 60;
  RUTA_CSV := "gpu_log.csv"
|}.

(** ** Exceptions and the state-and-exception monad *)

Inductive excepcion : Type :=
| KeyboardInterrupt
| NVMLError
| ZeroDivisionError
| IndexError.

Inductive resultado (A : Type) : Type :=
| Ok (a : A)
| Raise (e : excepcion).

Arguments Ok {A} a.
Arguments Raise {A} e.

(** A statement of the script: it runs on the globals [S], leaves them
    changed, and either yields a value or raises. *)
Definition M (S A : Type) : Type := S -> resultado A * S.

Definition ret {S A : Type} (a : A) : M S A := fun s => (Ok a, s).

Definition raise {S A : Type} (e : excepcion) : M S A := fun s => (Raise e, s).

Definition bind {S A B : Type} (m : M S A) (k : A -> M S B) : M S B :=
  fun s =>
    match m s with
    | (Ok a, s') => k a s'
    | (Raise e, s') => (Raise e, s')
    end.

Definition modify {S : Type} (f : S -> S) : M S unit := fun s => (Ok tt, f s).

Declare Scope py_scope.
Delimit Scope py_scope with py.
Notation "x <- m ;; k" := (bind m (fun x => k))
  (at level 100, m at next level, right associativity) : py_scope.
Notation "m ;;; k" := (bind m (fun _ => k))
  (at level 100, right associativity) : py_scope.

(** ** Buffers (lines 45-48) *)

(** The three deques; the left end of a deque is the head of the list. *)
Record buffers : Type := {
  t_muestras : list Q;
  proc_vals : list Q;
  mem_vals : list Q
}.

(** [deque()] three times. *)
Definition buffers_vacios : buffers :=
  {| t_muestras := []; proc_vals := []; mem_vals := [] |}.

(** The [while] loop of [recorta_antiguas] (lines 53-56).  One iteration tests
    [t_muestras and t_muestras[0] < corte] and then pops the left end of the
    three deques in the order of the source; [popleft] on an empty deque
    raises [IndexError] and leaves the pops already done in place.  Every
    iteration shortens [t_muestras] by its head, which is what the recursion
    follows. *)
Fixpoint recorta_bucle (corte : Q) (ts ps ms : list Q) : resultado unit * buffers :=
  match ts with
  | [] => (Ok tt, {| t_muestras := ts; proc_vals := ps; mem_vals := ms |})
  | t0 :: ts' =>
      if Qltb t0 corte then
        match ps with
        | [] => (Raise IndexError, {| t_muestras := ts'; proc_vals := ps; mem_vals := ms |})
        | _ :: ps' =>
            match ms with
            | [] => (Raise IndexError, {| t_muestras := ts'; proc_vals := ps'; mem_vals := ms |})
            | _ :: ms' => recorta_bucle corte ts' ps' ms'
            end
        end
      else (Ok tt, {| t_muestras := ts; proc_vals := ps; mem_vals := ms |})
  end.

(** [recorta_antiguas(ahora_epoch)] (lines 50-56). *)
Definition recorta_antiguas (cfg : config) (ahora_epoch : Q) : M buffers unit :=
  fun b =>
    let corte := ahora_epoch - VENTANA_SEGUNDOS cfg in
    recorta_bucle corte (t_muestras b) (proc_vals b) (mem_vals b).

(** The three [append]s of a tick (lines 102-104). *)
Definition inserta (ahora carga_proc carga_mem : Q) : M buffers unit :=
  modify (fun b =>
    {| t_muestras := t_muestras b ++ [ahora];
       proc_vals := proc_vals b ++ [carga_proc];
       mem_vals := mem_vals b ++ [carga_mem] |}).

(** Lines 102-105 of a tick: the three appends, then the trim at the tick's
    own time. *)
Definition paso (cfg : config) (ahora carga_proc carga_mem : Q) : M buffers unit :=
  (inserta ahora carga_proc carga_mem ;;; recorta_antiguas cfg ahora)%py.

(** ** Colour (lines 58-61) *)

Definition color : Type := (Q * Q * Q)%type.

(** [color_por_porcentaje(pct)]: 0% green to 100% red, as (R, G, B). *)
Definition color_por_porcentaje (pct : Q) : color :=
  let t := py_max 0 (py_min 1 (pct / 100)) in
  (t, 1 - t, 0).

(** ** Bar geometry (lines 107-118) *)

(** [x] of lines 108-111: the position of every timestamp relative to the
    left edge [ahora - VENTANA_SEGUNDOS] of the window. *)
Definition eje_x (cfg : config) (ahora : Q) (ts : list Q) : list Q :=
  match ts with
  | [] => []
  | _ :: _ => map (fun t => t - (ahora - VENTANA_SEGUNDOS cfg)) ts
  end.

(** [dx] of line 115: [sum(x[i+1] - x[i] for i in range(len(x)-1)) / (len(x)-1)]. *)
Definition dx (x : list Q) : Q :=
  py_sum (map (fun i => nth (i + 1) x 0 - nth i x 0) (seq 0 (length x - 1)))
  / inject_Z (Z.of_nat (length x - 1)).

(** [width] of lines 114-118. *)
Definition width (cfg : config) (x : list Q) : Q :=
  if (2 <=? length x)%nat then dx x else INTERVALO_MUESTREO cfg.

(** What one redraw hands to the two [bar] calls (lines 120-134). *)
Record cuadro : Type := {
  c_x : list Q;
  c_width : Q;
  c_proc : list Q;
  c_colores_proc : list color;
  c_mem : list Q;
  c_colores_mem : list color
}.

(** Lines 107-134 on the buffers as they stand after the trim. *)
Definition dibuja (cfg : config) (ahora : Q) (b : buffers) : cuadro :=
  let x := eje_x cfg ahora (t_muestras b) in
  {| c_x := x;
     c_width := width cfg x;
     c_proc := proc_vals b;
     c_colores_proc := map color_por_porcentaje (proc_vals b);
     c_mem := mem_vals b;
     c_colores_mem := map color_por_porcentaje (mem_vals b) |}.

(** ** CSV log (lines 32-38 and 92-99) *)

Open Scope string_scope.

(** The character of a decimal digit [0..9]. *)
Definition digito (n : Z) : ascii := ascii_of_nat (48 + Z.to_nat (n mod 10)).

(** The [d] lowest decimal digits of [n], zero-padded: [%0dd] on a number
    of at most [d] digits. *)
Fixpoint digitos (d : nat) (n : Z) : string :=
  match d with
  | O => ""
  | S d' => digitos d' (n / 10) ++ String (digito n) ""
  end.

(** A natural number in decimal, without padding. *)
Definition entero (n : Z) : string := NilZero.string_of_uint (N.to_uint (Z.to_N n)).

(** Rounding of a non-negative number to the nearest integer, ties to even. *)
Definition redondea (q : Q) : Z :=
  let f := Qfloor q in
  match (q - inject_Z f ?= 1 # 2)%Q with
  | Lt => f
  | Gt => (f + 1)%Z
  | Eq => if Z.even f then f else (f + 1)%Z
  end.

(** The format [f"{v:.df}"]: sign, integer part, and [d] decimals after the
    point (no point when [d] is zero). *)
Definition formato_f (d : nat) (v : Q) : string :=
  let n := redondea (Qabs v * inject_Z (10 ^ Z.of_nat d))%Q in
  let signo := if Qltb v 0 then "-" else "" in
  let frac := match d with O => "" | S _ => "." ++ digitos d n end in
  signo ++ entero (n / 10 ^ Z.of_nat d) ++ frac.

(** A [datetime] as [datetime.fromtimestamp] returns it. *)
Record datetime : Type := {
  year : Z;
  month : Z;
  day : Z;
  hour : Z;
  minute : Z;
  second : Z;
  microsecond : Z
}.

(** [dt.isoformat(sep=" ", timespec="seconds")]: [YYYY-MM-DD HH:MM:SS]. *)
Definition isoformat_seconds (dt : datetime) : string :=
  digitos 4 (year dt) ++ "-" ++ digitos 2 (month dt) ++ "-" ++ digitos 2 (day dt)
  ++ " " ++ digitos 2 (hour dt) ++ ":" ++ digitos 2 (minute dt) ++ ":" ++ digitos 2 (second dt).

(** A row of the CSV file is the list of its fields; [linea] is the text
    [csv.writer] puts in the file for it (none of the fields written here
    needs quoting), without the line terminator. *)
Definition fila : Type := list string.

Definition linea (r : fila) : string := String.concat "," r.

Definition CABECERA : fila :=
  ["epoch"; "fecha_completa"; "carga_procesador"; "carga_memoria"].

(** Lines 33-38.  [previo] is what the path holds when the script starts:
    [None] when it does not exist, the rows of the file otherwise.  Opening in
    append mode keeps them, and the header goes in only when [nuevo]. *)
Definition abre_csv (previo : option (list fila)) : list fila :=
  let nuevo := match previo with None => true | Some _ => false end in
  let f_csv := match previo with None => [] | Some filas => filas end in
  if nuevo then f_csv ++ [CABECERA] else f_csv.

(** The row of lines 93-98. *)
Definition fila_de_muestra (ahora : Q) (fecha : datetime) (carga_proc carga_mem : Q) : fila :=
  [formato_f 3 ahora; isoformat_seconds fecha; formato_f 2 carga_proc; formato_f 2 carga_mem].

Close Scope string_scope.

(** ** The globals of the script and one tick of its loop (lines 83-144) *)

Record estado : Type := {
  bufs : buffers;
  f_csv : list fila;
  f_csv_abierto : bool;
  nvml_activo : bool;
  figura : option cuadro
}.

(** Lines 33-48: the state the loop starts from. *)
Definition arranque (previo : option (list fila)) : estado :=
  {| bufs := buffers_vacios;
     f_csv := abre_csv previo;
     f_csv_abierto := true;
     nvml_activo := true;
     figura := None |}.

(** A statement on the buffers, run on the globals. *)
Definition en_bufs {A : Type} (m : M buffers A) : M estado A :=
  fun st =>
    let (r, b) := m (bufs st) in
    (r, {| bufs := b; f_csv := f_csv st; f_csv_abierto := f_csv_abierto st;
           nvml_activo := nvml_activo st; figura := figura st |}).

(** [w_csv.writerow(r)] followed by [f_csv.flush()]. *)
Definition writerow (r : fila) : M estado unit :=
  modify (fun st =>
    {| bufs := bufs st; f_csv := f_csv st ++ [r]; f_csv_abierto := f_csv_abierto st;
       nvml_activo := nvml_activo st; figura := figura st |}).

(** The redraw of lines 107-144. *)
Definition redibuja (cfg : config) (ahora : Q) : M estado unit :=
  modify (fun st =>
    {| bufs := bufs st; f_csv := f_csv st; f_csv_abierto := f_csv_abierto st;
       nvml_activo := nvml_activo st; figura := Some (dibuja cfg ahora (bufs st)) |}).

(** What the outside world hands to one tick: the clock, the two NVML
    queries (each returns or raises), and the local date
    [datetime.fromtimestamp] gives for the clock value. *)
Record lectura : Type := {
  l_ahora : Q;
  l_util : resultado Z;
  l_mem : resultado (Z * Z);
  l_fecha : datetime
}.

(** A call into NVML: its value, or its exception. *)
Definition consulta {A : Type} (r : resultado A) : M estado A :=
  match r with
  | Ok a => ret a
  | Raise e => raise e
  end.

(** [(mem.used / mem.total) * 100.0]. *)
Definition porcentaje_mem (used total : Z) : M estado Q :=
  if (total =? 0)%Z then raise ZeroDivisionError
  else ret (inject_Z used / inject_Z total * 100).

(** The body of the [while True] loop. *)
Definition tic (cfg : config) (l : lectura) : M estado unit :=
  (let ahora := l_ahora l in
   util <- consulta (l_util l) ;;
   let carga_proc := inject_Z util in
   mem <- consulta (l_mem l) ;;
   carga_mem <- porcentaje_mem (fst mem) (snd mem) ;;
   writerow (fila_de_muestra ahora (l_fecha l) carga_proc carga_mem) ;;;
   en_bufs (paso cfg ahora carga_proc carga_mem) ;;;
   redibuja cfg ahora)%py.

(** The [finally] clause: [f_csv.close()] and [nvmlShutdown()]. *)
Definition cierra (st : estado) : estado :=
  {| bufs := bufs st; f_csv := f_csv st; f_csv_abierto := false;
     nvml_activo := false; figura := figura st |}.

(** What happens around the loop: a tick with its readings, or the operator's
    interrupt during the pause. *)
Inductive evento : Type :=
| Tic (l : lectura)
| Interrupcion.

(** How a run ends: still looping when the events run out, stopped by the
    operator ([except KeyboardInterrupt]), or ended by an exception that
    leaves the [try] uncaught. *)
Inductive salida : Type :=
| EnMarcha
| Detenido
| Fallo (e : excepcion).

(** Lines 82-150 over the events of a run. *)
Fixpoint bucle (cfg : config) (evs : list evento) (st : estado) : salida * estado :=
  match evs with
  | [] => (EnMarcha, st)
  | Interrupcion :: _ => (Detenido, cierra st)
  | Tic l :: evs' =>
      match tic cfg l st with
      | (Ok _, st') => bucle cfg evs' st'
      | (Raise KeyboardInterrupt, st') => (Detenido, cierra st')
      | (Raise e, st') => (Fallo e, cierra st')
      end
  end.

(** ** Sequences of buffer operations *)

Inductive operacion : Type :=
| Inserta (ahora carga_proc carga_mem : Q)
| Recorta (ahora : Q).

Definition ejecuta (cfg : config) (op : operacion) : M buffers unit :=
  match op with
  | Inserta ahora carga_proc carga_mem => inserta ahora carga_proc carga_mem
  | Recorta ahora => recorta_antiguas cfg ahora
  end.

Fixpoint ejecuta_todas (cfg : config) (ops : list operacion) : M buffers unit :=
  match ops with
  | [] => ret tt
  | op :: ops' => (ejecuta cfg op ;;; ejecuta_todas cfg ops')%py
  end.

(** Regular sampling: one [paso] per load, [delta] seconds apart, from time [t]. *)
Fixpoint muestreo (cfg : config) (delta t : Q) (cargas : list (Q * Q)) : M buffers unit :=
  match cargas with
  | [] => ret tt
  | (carga_proc, carga_mem) :: r =>
      (paso cfg t carga_proc carga_mem ;;; muestreo cfg delta (t + delta) r)%py
  end.

(** ** Predicates on buffer states *)

(** The three deques have the same length. *)
Definition en_paralelo (b : buffers) : Prop :=
  length (proc_vals b) = length (t_muestras b) /\
  length (mem_vals b) = length (t_muestras b).

(** Timestamps never go down from one entry to the next. *)
Fixpoint no_decreciente (ts : list Q) : Prop :=
  match ts with
  | a :: (b :: _) as r => a <= b /\ no_decreciente r
  | _ => True
  end.

(** The buffer states a run goes through while the clock never goes back:
    lockstep, non-decreasing timestamps, none later than the last tick
    [ahora]. *)
Definition buffer_valido (ahora : Q) (b : buffers) : Prop :=
  en_paralelo b /\
  no_decreciente (t_muestras b) /\
  Forall (fun t => t <= ahora) (t_muestras b).

(** The buffer read as one sequence of samples (timestamp, processor, memory). *)
Definition muestras (b : buffers) : list (Q * (Q * Q)) :=
  combine (t_muestras b) (combine (proc_vals b) (mem_vals b)).

(** Consecutive timestamps are exactly [delta] apart. *)
Fixpoint regular (delta : Q) (ts : list Q) : Prop :=
  match ts with
  | a :: (b :: _) as r => b - a == delta /\ regular delta r
  | _ => True
  end.

(** The differences between consecutive positions, and the arithmetic mean
    of a list: the words of the bar-width rule. *)
Fixpoint deltas (x : list Q) : list Q :=
  match x with
  | a :: (b :: _) as r => (b - a) :: deltas r
  | _ => []
  end.

Definition media (l : list Q) : Q := py_sum l / inject_Z (Z.of_nat (length l)).

(** The [n] whole seconds from [desde] on. *)
Definition segundos (desde n : nat) : list Q :=
  map (fun i => inject_Z (Z.of_nat i)) (seq desde n).

(** Sixty inserts at the whole seconds 0..59 with loads [p i] and [m i],
    then one trim at 59. *)
Definition sesenta_segundos (p m : nat -> Q) : list operacion :=
  map (fun i => Inserta (inject_Z (Z.of_nat i)) (p i) (m i)) (seq 0 60) ++ [Recorta 59].

(** What a regular run keeps true between two ticks, [t] being the time of
    the next one: lockstep, spacing [delta], and a newest sample taken
    [delta] before [t]. *)
Definition en_regimen (delta t : Q) (b : buffers) : Prop :=
  en_paralelo b /\
  regular delta (t_muestras b) /\
  exists ts0 u, t_muestras b = ts0 ++ [u] /\ u + delta == t.

(** ** Readings and the shape of the logged fields *)

(** The readings of a tick fail with [e]: the first query raises it, or the
    second does after the first returned, or the card reports no memory at
    all and the percentage divides by zero. *)
Definition lectura_falla (l : lectura) (e : excepcion) : Prop :=
  l_util l = Raise e \/
  (exists util, l_util l = Ok util /\ l_mem l = Raise e) \/
  (exists util used, l_util l = Ok util /\ l_mem l = Ok (used, 0%Z) /\ e = ZeroDivisionError).

(** Both queries return and the card has memory. *)
Definition lectura_buena (l : lectura) : Prop :=
  exists util used total,
    l_util l = Ok util /\ l_mem l = Ok (used, total) /\ total <> 0%Z.

(** The loads a good reading gives (zero where the reading is not good). *)
Definition carga_proc_de (l : lectura) : Q :=
  match l_util l with Ok util => inject_Z util | Raise _ => 0 end.

Definition carga_mem_de (l : lectura) : Q :=
  match l_mem l with
  | Ok (used, total) => inject_Z used / inject_Z total * 100
  | Raise _ => 0
  end.

(** The row a tick logs for a good reading. *)
Definition fila_de_lectura (l : lectura) : fila :=
  fila_de_muestra (l_ahora l) (l_fecha l) (carga_proc_de l) (carga_mem_de l).

Definition es_digito (c : ascii) : bool :=
  ((48 <=? nat_of_ascii c) && (nat_of_ascii c <=? 57))%nat.

Fixpoint solo_digitos (s : string) : bool :=
  match s with
  | EmptyString => true
  | String c r => es_digito c && solo_digitos r
  end.

(** What is left of a string after its leading digits. *)
Fixpoint tras_digitos (s : string) : string :=
  match s with
  | EmptyString => EmptyString
  | String c r => if es_digito c then tras_digitos r else s
  end.

(** [s] is one digit or more, a point, and exactly [d] digits. *)
Definition decimales_sin_signo (d : nat) (s : string) : bool :=
  match s with
  | EmptyString => false
  | String c _ =>
      es_digito c &&
      match tras_digitos s with
      | String p frac => Ascii.eqb p "." && solo_digitos frac && (String.length frac =? d)%nat
      | EmptyString => false
      end
  end.

(** [s] is a decimal number with exactly [d] digits after the point, with or
    without a minus sign in front. *)
Definition decimales (d : nat) (s : string) : bool :=
  match s with
  | EmptyString => false
  | String c r =>
      if Ascii.eqb c "-" then decimales_sin_signo d r else decimales_sin_signo d s
  end.

(** A character class of a fixed-width pattern: any digit, or one character. *)
Inductive clase : Type :=
| Dig
| Car (c : ascii).

Fixpoint ajusta (patron : list clase) (s : string) : bool :=
  match patron, s with
  | [], EmptyString => true
  | Dig :: patron', String c r => es_digito c && ajusta patron' r
  | Car k :: patron', String c r => Ascii.eqb c k && ajusta patron' r
  | _, _ => false
  end.

(** [YYYY-MM-DD HH:MM:SS]: a date to the second, with nothing after it. *)
Definition FECHA_AL_SEGUNDO : list clase :=
  [Dig; Dig; Dig; Dig; Car "-"; Dig; Dig; Car "-"; Dig; Dig; Car " ";
   Dig; Dig; Car ":"; Dig; Dig; Car ":"; Dig; Dig].

(** A logged row as the schema has it: epoch with three decimals, the date
    to the second, and the two loads with two decimals. *)
Definition fila_bien_formada (r : fila) : bool :=
  match r with
  | [epoch; fecha_completa; carga_procesador; carga_memoria] =>
      decimales 3 epoch && ajusta FECHA_AL_SEGUNDO fecha_completa
      && decimales 2 carga_procesador && decimales 2 carga_memoria
  | _ => false
  end.

(** The two colour channels the gradient moves. *)
Definition rojo (c : color) : Q := fst (fst c).
Definition verde (c : color) : Q := snd (fst c).


(** ** The text of a logged line *)

(** The characters [csv.writer] would have to quote in a field: the comma,
    the double quote, carriage return and line feed. *)
Definition es_especial (c : ascii) : bool :=
  Ascii.eqb c "," || Ascii.eqb c (ascii_of_nat 34)
  || Ascii.eqb c (ascii_of_nat 13) || Ascii.eqb c (ascii_of_nat 10).

Fixpoint sin_especiales (s : string) : bool :=
  match s with
  | EmptyString => true
  | String c r => negb (es_especial c) && sin_especiales r
  end.

(** A line cut at its commas: the first field, and the fields after it. *)
Fixpoint parte (s : string) : string * list string :=
  match s with
  | EmptyString => (EmptyString, [])
  | String c r =>
      let (h, t) := parte r in
      if Ascii.eqb c "," then (EmptyString, h :: t) else (String c h, t)
  end.

Definition campos (s : string) : list string :=
  let (h, t) := parte s in h :: t.

(** ** Reading a logged number back *)

(** The value of a digit character. *)
Definition valor_digito (c : ascii) : Z := (Z.of_nat (nat_of_ascii c) - 48)%Z.

(** The number a string of digits writes after the digits that gave [acc]. *)
Fixpoint valor_digitos (s : string) (acc : Z) : Z :=
  match s with
  | EmptyString => acc
  | String c r => valor_digitos r (10 * acc + valor_digito c)
  end.

(** The leading digits of a string as a number, and what follows them. *)
Fixpoint lee_entero (s : string) (acc : Z) : Z * string :=
  match s with
  | EmptyString => (acc, EmptyString)
  | String c r => if es_digito c then lee_entero r (10 * acc + valor_digito c) else (acc, s)
  end.

(** The number written by an optional minus sign, digits, a point and
    digits; [None] on any other text. *)
Definition lee_decimal (s : string) : option Q :=
  let negativo := match s with String c _ => Ascii.eqb c "-" | EmptyString => false end in
  let s1 := match s with String c r => if Ascii.eqb c "-" then r else s | EmptyString => s end in
  let (e, resto) := lee_entero s1 0 in
  match resto with
  | String p frac =>
      if Ascii.eqb p "." && solo_digitos frac then
        let v := inject_Z e
                 + inject_Z (valor_digitos frac 0)
                   / inject_Z (10 ^ Z.of_nat (String.length frac)) in
        Some (if negativo then - v else v)
      else None
  | EmptyString => None
  end.

(** Comparisons between rational constants. *)
Ltac orden := unfold Qle, Qlt; simpl; lia.

(** * Proofs *)

(** ** The definitions on concrete inputs *)

Example fila_del_ejemplo :
  linea (fila_de_muestra (1700000000123 # 1000)
           {| year := 2023; month := 11; day := 14; hour := 12;
              minute := 0; second := 0; microsecond := 123000 |}
           42 (147 # 2))
  = "1700000000.123,2023-11-14 12:00:00,42.00,73.50"%string.
Proof.
  vm_compute. reflexivity.
Qed.

Example formato_redondea_al_par :
  formato_f 2 (1 # 8) = "0.12"%string /\ formato_f 2 (3 # 8) = "0.38"%string /\
  formato_f 3 (9996 # 10000) = "1.000"%string.
Proof.
  repeat split; vm_compute; reflexivity.
Qed.

Example decimales_rechaza :
  decimales 3 "1.23" = false /\ decimales 2 "1.234" = false /\
  decimales 2 ".50" = false /\ decimales 2 "12" = false /\
  fila_bien_formada CABECERA = false.
Proof.
  repeat split; reflexivity.
Qed.

Example color_a_la_mitad :
  rojo (color_por_porcentaje 50) == 1 # 2 /\ verde (color_por_porcentaje 50) == 1 # 2.
Proof.
  split; reflexivity.
Qed.

Example lee_decimal_ejemplos :
  lee_decimal "73.50" = Some (73 + 50 / 100) /\
  lee_decimal "-0.000" = Some (- (0 + 0 / 1000)) /\
  lee_decimal "epoch" = None /\ lee_decimal "12" = None /\ lee_decimal "1.2x" = None /\
  campos "a,b,,c" = ["a"; "b"; ""; "c"]%string.
Proof.
  repeat split; vm_compute; reflexivity.
Qed.

(** Deques out of step: the trim pops a timestamp and then finds the next
    deque empty. *)
Example recorta_fuera_de_paso :
  recorta_antiguas CONFIGURACION 100 {| t_muestras := [0; 1]; proc_vals := []; mem_vals := [] |}
  = (Raise IndexError, {| t_muestras := [1]; proc_vals := []; mem_vals := [] |}).
Proof.
  reflexivity.
Qed.

(** Timestamps out of order: the loop stops at the first recent head and
    leaves an older entry behind it. *)
Example recorta_sin_orden :
  recorta_antiguas CONFIGURACION 62 {| t_muestras := [3; 0]; proc_vals := [1; 2]; mem_vals := [1; 2] |}
  = (Ok tt, {| t_muestras := [3; 0]; proc_vals := [1; 2]; mem_vals := [1; 2] |}).
Proof.
  reflexivity.
Qed.

(** ** Comparisons and order *)

Lemma Qltb_true (a b : Q) : Qltb a b = true <-> a < b.
Proof.
  unfold Qltb. rewrite negb_true_iff, <- not_true_iff_false, Qle_bool_iff.
  split; [apply Qnot_le_lt | apply Qlt_not_le].
Qed.

Lemma Qltb_false (a b : Q) : Qltb a b = false <-> b <= a.
Proof.
  unfold Qltb. rewrite negb_false_iff. apply Qle_bool_iff.
Qed.

Lemma Qle_bool_false (a b : Q) : Qle_bool a b = false <-> b < a.
Proof.
  rewrite <- not_true_iff_false, Qle_bool_iff.
  split; [apply Qnot_le_lt | apply Qlt_not_le].
Qed.

Lemma no_decreciente_cola (a : Q) (ts : list Q) :
  no_decreciente (a :: ts) -> no_decreciente ts.
Proof.
  destruct ts as [|b r]; simpl; tauto.
Qed.

Lemma no_decreciente_cabeza (a : Q) (ts : list Q) :
  no_decreciente (a :: ts) -> Forall (fun t => a <= t) ts.
Proof.
  revert a. induction ts as [|b r IH]; intros a H; constructor.
  - simpl in H. tauto.
  - destruct H as [Hab Hr]. specialize (IH b Hr).
    eapply Forall_impl; [|exact IH]. simpl. intros t Hbt. lra.
Qed.

Lemma no_decreciente_skipn (k : nat) (ts : list Q) :
  no_decreciente ts -> no_decreciente (skipn k ts).
Proof.
  revert k. induction ts as [|a r IH]; intros [|k] H; simpl; auto.
  apply IH. exact (no_decreciente_cola _ _ H).
Qed.

(** ** The trimming loop *)

(** On deques of equal length the loop never raises; it drops a prefix of
    entries older than [corte] and stops at the first entry that is not. *)
Lemma recorta_bucle_paralelo (corte : Q) (ts ps ms : list Q) :
  length ps = length ts -> length ms = length ts ->
  exists k,
    recorta_bucle corte ts ps ms
    = (Ok tt, {| t_muestras := skipn k ts; proc_vals := skipn k ps; mem_vals := skipn k ms |})
    /\ (k <= length ts)%nat
    /\ Forall (fun t => t < corte) (firstn k ts)
    /\ (match skipn k ts with [] => True | t0 :: _ => corte <= t0 end).
Proof.
  revert ps ms. induction ts as [|t0 ts' IH]; intros ps ms Hp Hm.
  - exists 0%nat. simpl. repeat split; auto.
  - destruct ps as [|p ps']; [discriminate|]. destruct ms as [|m ms']; [discriminate|].
    simpl. destruct (Qltb t0 corte) eqn:E.
    + destruct (IH ps' ms') as (k & Hk & Hle & Hold & Hnew); [simpl in *; lia..|].
      exists (S k). simpl. rewrite Hk. repeat split; auto; [lia|].
      constructor; auto. now apply Qltb_true.
    + exists 0%nat. simpl. repeat split; auto; [lia|]. now apply Qltb_false.
Qed.

(** With non-decreasing timestamps, everything after the dropped prefix is
    inside the window. *)
Lemma recorta_antiguas_prefijo (cfg : config) (ahora : Q) (b : buffers) :
  en_paralelo b ->
  no_decreciente (t_muestras b) ->
  exists k,
    recorta_antiguas cfg ahora b
    = (Ok tt, {| t_muestras := skipn k (t_muestras b);
                 proc_vals := skipn k (proc_vals b);
                 mem_vals := skipn k (mem_vals b) |})
    /\ (k <= length (t_muestras b))%nat
    /\ Forall (fun t => t < ahora - VENTANA_SEGUNDOS cfg) (firstn k (t_muestras b))
    /\ Forall (fun t => ahora - VENTANA_SEGUNDOS cfg <= t) (skipn k (t_muestras b)).
Proof.
  intros [Hp Hm] Hs. unfold recorta_antiguas.
  destruct (recorta_bucle_paralelo (ahora - VENTANA_SEGUNDOS cfg) _ _ _ Hp Hm)
    as (k & Hk & Hle & Hold & Hnew).
  exists k. repeat split; auto.
  apply (no_decreciente_skipn k) in Hs.
  destruct (skipn k (t_muestras b)) as [|t0 r]; constructor; auto.
  apply no_decreciente_cabeza in Hs.
  eapply Forall_impl; [|exact Hs]. simpl. intros t Ht. lra.
Qed.

Lemma inserta_paralelo (ahora p m : Q) (b : buffers) :
  en_paralelo b ->
  en_paralelo {| t_muestras := t_muestras b ++ [ahora];
                 proc_vals := proc_vals b ++ [p];
                 mem_vals := mem_vals b ++ [m] |}.
Proof.
  intros [Hp Hm]. split; simpl; rewrite !length_app; simpl; lia.
Qed.

Lemma en_paralelo_skipn (k : nat) (b : buffers) :
  en_paralelo b ->
  en_paralelo {| t_muestras := skipn k (t_muestras b);
                 proc_vals := skipn k (proc_vals b);
                 mem_vals := skipn k (mem_vals b) |}.
Proof.
  intros [Hp Hm]. split; simpl; rewrite !length_skipn; lia.
Qed.

Lemma combine_skipn {A B : Type} (k : nat) (l : list A) (l' : list B) :
  combine (skipn k l) (skipn k l') = skipn k (combine l l').
Proof.
  revert l l'. induction k as [|k IH]; intros [|a l] [|a' l']; simpl; auto.
  now destruct (skipn k l).
Qed.

Lemma combine_snoc {A B : Type} (l : list A) (l' : list B) (a : A) (a' : B) :
  length l' = length l ->
  combine (l ++ [a]) (l' ++ [a']) = combine l l' ++ [(a, a')].
Proof.
  revert l'. induction l as [|x l IH]; intros [|x' l'] H; try discriminate; simpl; auto.
  f_equal. apply IH. simpl in H. lia.
Qed.

(** A filter that rejects a prefix and accepts the rest is [skipn]. *)
Lemma filter_prefijo {A : Type} (f : A -> bool) (k : nat) (l : list A) :
  Forall (fun a => f a = false) (firstn k l) ->
  Forall (fun a => f a = true) (skipn k l) ->
  filter f l = skipn k l.
Proof.
  intros Hd Hk. rewrite <- (firstn_skipn k l) at 1. rewrite filter_app.
  assert (E1 : filter f (firstn k l) = []).
  { induction Hd as [|a r Ha _ IH]; simpl; auto. now rewrite Ha. }
  assert (E2 : filter f (skipn k l) = skipn k l).
  { induction Hk as [|a r Ha _ IH]; simpl; auto. now rewrite Ha, IH. }
  now rewrite E1, E2.
Qed.

Lemma Forall_combine_fst {A B : Type} (P : A -> Prop) (l : list A) (l' : list B) :
  Forall P l -> Forall (fun s => P (fst s)) (combine l l').
Proof.
  intros H. revert l'. induction H as [|a r Ha _ IH]; intros [|a' l']; simpl; auto.
Qed.

(** ** C1: the window invariant *)

(** C1.  On every buffer state with the three deques in lockstep and the
    timestamps non-decreasing, [recorta_antiguas ahora] returns normally and
    every timestamp it leaves is at least [ahora - VENTANA_SEGUNDOS]. *)
Theorem ventana_invariante (cfg : config) (ahora : Q) (b : buffers) :
  en_paralelo b ->
  no_decreciente (t_muestras b) ->
  exists b',
    recorta_antiguas cfg ahora b = (Ok tt, b') /\
    Forall (fun t => ahora - VENTANA_SEGUNDOS cfg <= t) (t_muestras b').
Proof.
  intros Hp Hs.
  destruct (recorta_antiguas_prefijo cfg ahora b Hp Hs) as (k & Hk & _ & _ & Hnew).
  eexists. split; [exact Hk|]. exact Hnew.
Qed.

Lemma ventana_invariante_testigo :
  exists b',
    recorta_antiguas CONFIGURACION 65
      {| t_muestras := [0; 5; 65]; proc_vals := [10; 20; 30]; mem_vals := [1; 2; 3] |}
    = (Ok tt, b') /\
    Forall (fun t => 65 - VENTANA_SEGUNDOS CONFIGURACION <= t) (t_muestras b').
Proof.
  apply (ventana_invariante CONFIGURACION 65
           {| t_muestras := [0; 5; 65]; proc_vals := [10; 20; 30]; mem_vals := [1; 2; 3] |}).
  - split; reflexivity.
  - simpl. repeat split; orden.
Defined.

(** ** C2: eviction is exact *)

(** C2.  With the deques in lockstep and the timestamps non-decreasing,
    [recorta_antiguas ahora] keeps exactly the samples whose timestamp [t]
    has [ahora - VENTANA_SEGUNDOS <= t], in their order, and removes the
    others: a sample exactly at the cutoff stays.  With the shipped window of
    60 s, samples at 0 and 65 trimmed at 65 leave the one at 65, and a sample
    at 5 would have stayed. *)
Theorem recorte_exacto :
  (forall (cfg : config) (ahora : Q) (b : buffers),
      en_paralelo b ->
      no_decreciente (t_muestras b) ->
      exists b',
        recorta_antiguas cfg ahora b = (Ok tt, b') /\
        en_paralelo b' /\
        t_muestras b' = filter (fun t => Qle_bool (ahora - VENTANA_SEGUNDOS cfg) t) (t_muestras b) /\
        muestras b'
        = filter (fun s => Qle_bool (ahora - VENTANA_SEGUNDOS cfg) (fst s)) (muestras b)) /\
  (forall p0 m0 p1 m1 : Q,
      (inserta 0 p0 m0 ;;; inserta 65 p1 m1 ;;; recorta_antiguas CONFIGURACION 65)%py
        buffers_vacios
      = (Ok tt, {| t_muestras := [65]; proc_vals := [p1]; mem_vals := [m1] |})) /\
  (forall p0 m0 p1 m1 : Q,
      (inserta 5 p0 m0 ;;; inserta 65 p1 m1 ;;; recorta_antiguas CONFIGURACION 65)%py
        buffers_vacios
      = (Ok tt, {| t_muestras := [5; 65]; proc_vals := [p0; p1]; mem_vals := [m0; m1] |})).
Proof.
  split; [|split; reflexivity].
  intros cfg ahora b Hp Hs.
  destruct (recorta_antiguas_prefijo cfg ahora b Hp Hs) as (k & Hk & _ & Hold & Hnew).
  eexists. split; [exact Hk|]. split; [now apply en_paralelo_skipn|].
  assert (Hold' : Forall (fun t => Qle_bool (ahora - VENTANA_SEGUNDOS cfg) t = false)
                         (firstn k (t_muestras b))).
  { eapply Forall_impl; [|exact Hold]. intros t Ht. now apply Qle_bool_false. }
  assert (Hnew' : Forall (fun t => Qle_bool (ahora - VENTANA_SEGUNDOS cfg) t = true)
                         (skipn k (t_muestras b))).
  { eapply Forall_impl; [|exact Hnew]. intros t Ht. now apply Qle_bool_iff. }
  split; simpl.
  - symmetry. now apply filter_prefijo.
  - unfold muestras; simpl. rewrite !combine_skipn. symmetry.
    apply filter_prefijo; rewrite <- ?combine_skipn, ?combine_firstn.
    + now apply (Forall_combine_fst (fun t => Qle_bool (ahora - VENTANA_SEGUNDOS cfg) t = false)).
    + now apply (Forall_combine_fst (fun t => Qle_bool (ahora - VENTANA_SEGUNDOS cfg) t = true)).
Qed.

Lemma recorte_exacto_testigo :
  exists b',
    recorta_antiguas CONFIGURACION 65
      {| t_muestras := [0; 5; 65]; proc_vals := [10; 20; 30]; mem_vals := [1; 2; 3] |}
    = (Ok tt, b') /\
    en_paralelo b' /\
    t_muestras b' = filter (fun t => Qle_bool (65 - VENTANA_SEGUNDOS CONFIGURACION) t) [0; 5; 65] /\
    muestras b'
    = filter (fun s => Qle_bool (65 - VENTANA_SEGUNDOS CONFIGURACION) (fst s))
        (muestras {| t_muestras := [0; 5; 65]; proc_vals := [10; 20; 30]; mem_vals := [1; 2; 3] |}).
Proof.
  apply (proj1 recorte_exacto CONFIGURACION 65
           {| t_muestras := [0; 5; 65]; proc_vals := [10; 20; 30]; mem_vals := [1; 2; 3] |}).
  - split; reflexivity.
  - simpl. repeat split; orden.
Defined.

(** ** The buffer states of a run *)

Lemma no_decreciente_snoc (ts : list Q) (a : Q) :
  no_decreciente ts -> Forall (fun t => t <= a) ts -> no_decreciente (ts ++ [a]).
Proof.
  induction ts as [|b [|c r] IH]; intros Hs Ha.
  - exact I.
  - simpl. split; [now inversion Ha | exact I].
  - destruct Hs as [Hbc Hs]. split; [exact Hbc|]. apply IH; [exact Hs | now inversion Ha].
Qed.

Lemma Forall_skipn {A : Type} (P : A -> Prop) (k : nat) (l : list A) :
  Forall P l -> Forall P (skipn k l).
Proof.
  intros H. rewrite <- (firstn_skipn k l) in H. now apply Forall_app in H.
Qed.

(** While the clock does not go back, a tick's insert-and-trim takes a valid
    buffer to a valid buffer, all of it inside the window of the tick. *)
Lemma paso_valido (cfg : config) (ahora ahora' p m : Q) (b : buffers) :
  0 <= VENTANA_SEGUNDOS cfg ->
  buffer_valido ahora b ->
  ahora <= ahora' ->
  exists b',
    paso cfg ahora' p m b = (Ok tt, b') /\
    buffer_valido ahora' b' /\
    Forall (fun t => ahora' - VENTANA_SEGUNDOS cfg <= t <= ahora') (t_muestras b') /\
    t_muestras b' <> [].
Proof.
  intros HW (Hpar & Hord & Hmax) Hclock.
  set (b1 := {| t_muestras := t_muestras b ++ [ahora'];
                proc_vals := proc_vals b ++ [p];
                mem_vals := mem_vals b ++ [m] |}).
  assert (Hpar1 : en_paralelo b1) by now apply inserta_paralelo.
  assert (Hmax1 : Forall (fun t => t <= ahora') (t_muestras b1)).
  { unfold b1; simpl. apply Forall_app. split.
    - eapply Forall_impl; [|exact Hmax]. simpl. intros t Ht. lra.
    - repeat constructor. lra. }
  assert (Hord1 : no_decreciente (t_muestras b1)).
  { unfold b1; simpl. apply no_decreciente_snoc; [exact Hord|].
    eapply Forall_impl; [|exact Hmax]. simpl. intros t Ht. lra. }
  destruct (recorta_antiguas_prefijo cfg ahora' b1 Hpar1 Hord1) as (k & Hk & _ & Hold & Hnew).
  eexists. split; [exact Hk|]. cbn [t_muestras].
  assert (Hmaxk : Forall (fun t => t <= ahora') (skipn k (t_muestras b1)))
    by now apply Forall_skipn.
  split; [split; [now apply en_paralelo_skipn | split]|split].
  - now apply no_decreciente_skipn.
  - exact Hmaxk.
  - rewrite Forall_forall in *. intros t Ht. split; [exact (Hnew t Ht) | exact (Hmaxk t Ht)].
  - intros E. apply skipn_all_iff in E. apply firstn_all2 in E. rewrite E in Hold.
    unfold b1 in Hold; simpl in Hold. apply Forall_app in Hold. destruct Hold as [_ Hold].
    inversion Hold as [|? ? Hlt _]. lra.
Qed.

(** ** C3: positions on the x axis *)

Lemma eje_x_map (cfg : config) (ahora : Q) (ts : list Q) :
  eje_x cfg ahora ts = map (fun t => t - (ahora - VENTANA_SEGUNDOS cfg)) ts.
Proof.
  now destruct ts.
Qed.



(** ** C4: the bar width *)

Lemma map_nth_deltas (a : Q) (x : list Q) :
  map (fun i => nth (i + 1) (a :: x) 0 - nth i (a :: x) 0) (seq 0 (length x))
  = deltas (a :: x).
Proof.
  revert a. induction x as [|b r IH]; intros a; [reflexivity|].
  cbn [length seq map]. change (deltas (a :: b :: r)) with ((b - a) :: deltas (b :: r)).
  f_equal. rewrite <- IH, <- seq_shift, map_map. apply map_ext. intros i. reflexivity.
Qed.

Lemma length_deltas (x : list Q) : length (deltas x) = (length x - 1)%nat.
Proof.
  induction x as [|a [|b r] IH]; auto.
  cbn [deltas length] in *. lia.
Qed.

Lemma dx_media (x : list Q) : dx x = media (deltas x).
Proof.
  unfold dx, media. rewrite length_deltas. destruct x as [|a r]; [reflexivity|].
  cbn [length]. rewrite Nat.sub_1_r. cbn [pred]. now rewrite map_nth_deltas.
Qed.

(** C4.  With two samples or more the width is the arithmetic mean of the
    differences between consecutive positions; on an empty buffer there are
    no positions and the width is [INTERVALO_MUESTREO]; on a single sample
    there is one position and the width is [INTERVALO_MUESTREO]. *)
Theorem ancho_de_barra (cfg : config) :
  (forall x : list Q, (2 <= length x)%nat -> width cfg x = media (deltas x)) /\
  (forall ahora : Q,
      eje_x cfg ahora [] = [] /\
      width cfg (eje_x cfg ahora []) = INTERVALO_MUESTREO cfg) /\
  (forall ahora t : Q,
      eje_x cfg ahora [t] = [t - (ahora - VENTANA_SEGUNDOS cfg)] /\
      width cfg (eje_x cfg ahora [t]) = INTERVALO_MUESTREO cfg).
Proof.
  repeat split.
  intros x Hx. unfold width. apply Nat.leb_le in Hx. rewrite Hx. apply dx_media.
Qed.

Lemma ancho_de_barra_testigo :
  width CONFIGURACION [1; 2; 4] = media (deltas [1; 2; 4]).
Proof.
  apply (proj1 (ancho_de_barra CONFIGURACION) [1; 2; 4]). simpl. lia.
Defined.

(** ** C7: the colour gradient *)

Lemma entre_cien (pct : Q) : pct / 100 == pct * (1 # 100).
Proof.
  unfold Qdiv. reflexivity.
Qed.

Lemma color_bajo (pct : Q) : pct <= 0 -> color_por_porcentaje pct = (0, 1 - 0, 0).
Proof.
  intros H. pose proof (entre_cien pct) as D. unfold color_por_porcentaje, py_max, py_min.
  destruct (Qltb (pct / 100) 1) eqn:E1.
  - destruct (Qltb 0 (pct / 100)) eqn:E2; [|reflexivity].
    apply Qltb_true in E2. lra.
  - apply Qltb_false in E1. lra.
Qed.

Lemma color_alto (pct : Q) : 100 <= pct -> color_por_porcentaje pct = (1, 1 - 1, 0).
Proof.
  intros H. pose proof (entre_cien pct) as D. unfold color_por_porcentaje, py_max, py_min.
  destruct (Qltb (pct / 100) 1) eqn:E1.
  - apply Qltb_true in E1. lra.
  - reflexivity.
Qed.

Lemma color_medio (pct : Q) :
  0 <= pct -> pct <= 100 ->
  rojo (color_por_porcentaje pct) == pct / 100 /\
  verde (color_por_porcentaje pct) == 1 - pct / 100.
Proof.
  intros H0 H1. pose proof (entre_cien pct) as D.
  unfold color_por_porcentaje, py_max, py_min, rojo, verde.
  destruct (Qltb (pct / 100) 1) eqn:E1; [apply Qltb_true in E1 | apply Qltb_false in E1].
  - destruct (Qltb 0 (pct / 100)) eqn:E2; [apply Qltb_true in E2 | apply Qltb_false in E2];
      simpl; split; lra.
  - simpl. split; lra.
Qed.

(** C7.  [color_por_porcentaje 0] is pure green and [color_por_porcentaje 100]
    pure red; between 0 and 100 red never decreases and green never increases
    as the percentage grows; below 0 the colour is the one of 0 and above 100
    the one of 100. *)
Theorem color_correcto :
  color_por_porcentaje 0 = (0, 1, 0) /\
  color_por_porcentaje 100 = (1, 0, 0) /\
  (forall a b : Q,
      0 <= a -> a < b -> b <= 100 ->
      rojo (color_por_porcentaje a) <= rojo (color_por_porcentaje b) /\
      verde (color_por_porcentaje a) >= verde (color_por_porcentaje b)) /\
  (forall pct : Q, pct < 0 -> color_por_porcentaje pct = color_por_porcentaje 0) /\
  (forall pct : Q, 100 < pct -> color_por_porcentaje pct = color_por_porcentaje 100) /\
  color_por_porcentaje (-10) = color_por_porcentaje 0 /\
  color_por_porcentaje 150 = color_por_porcentaje 100.
Proof.
  repeat split; try reflexivity.
  - destruct (color_medio a) as [Ra _]; [lra..|].
    destruct (color_medio b) as [Rb _]; [lra..|]. rewrite Ra, Rb.
    pose proof (entre_cien a). pose proof (entre_cien b). lra.
  - destruct (color_medio a) as [_ Ga]; [lra..|].
    destruct (color_medio b) as [_ Gb]; [lra..|]. rewrite Ga, Gb.
    pose proof (entre_cien a). pose proof (entre_cien b). lra.
  - intros pct H. rewrite (color_bajo pct), (color_bajo 0); auto; lra.
  - intros pct H. rewrite (color_alto pct), (color_alto 100); auto; lra.
Qed.

Lemma color_correcto_testigo :
  rojo (color_por_porcentaje 25) <= rojo (color_por_porcentaje 75) /\
  verde (color_por_porcentaje 25) >= verde (color_por_porcentaje 75).
Proof.
  apply (proj1 (proj2 (proj2 color_correcto)) 25 75); orden.
Defined.

(** ** C10: the three deques move together *)

Lemma recorta_antiguas_paralelo (cfg : config) (ahora : Q) (b : buffers) :
  en_paralelo b ->
  exists k,
    recorta_antiguas cfg ahora b
    = (Ok tt, {| t_muestras := skipn k (t_muestras b);
                 proc_vals := skipn k (proc_vals b);
                 mem_vals := skipn k (mem_vals b) |}).
Proof.
  intros [Hp Hm]. unfold recorta_antiguas.
  destruct (recorta_bucle_paralelo (ahora - VENTANA_SEGUNDOS cfg) _ _ _ Hp Hm) as (k & Hk & _).
  now exists k.
Qed.

(** C10.  An insert appends one element to each of the three deques, so the
    sample sequence grows by the new sample at its end; on deques of equal
    length a trim never raises and drops the same number [k] of elements from
    the head of each, so the sample sequence loses its first [k] samples; and
    from deques of equal length every sequence of inserts and trims runs to
    its end and leaves deques of equal length. *)
Theorem deques_en_paralelo (cfg : config) :
  (forall (ahora p m : Q) (b : buffers),
      exists b',
        inserta ahora p m b = (Ok tt, b') /\
        t_muestras b' = t_muestras b ++ [ahora] /\
        proc_vals b' = proc_vals b ++ [p] /\
        mem_vals b' = mem_vals b ++ [m] /\
        (en_paralelo b -> en_paralelo b' /\ muestras b' = muestras b ++ [(ahora, (p, m))])) /\
  (forall (ahora : Q) (b : buffers),
      en_paralelo b ->
      exists k b',
        recorta_antiguas cfg ahora b = (Ok tt, b') /\
        t_muestras b' = skipn k (t_muestras b) /\
        proc_vals b' = skipn k (proc_vals b) /\
        mem_vals b' = skipn k (mem_vals b) /\
        en_paralelo b' /\
        muestras b' = skipn k (muestras b)) /\
  (forall (ops : list operacion) (b : buffers),
      en_paralelo b ->
      exists b', ejecuta_todas cfg ops b = (Ok tt, b') /\ en_paralelo b').
Proof.
  split; [|split].
  - intros ahora p m b. eexists. split; [reflexivity|]. cbn [t_muestras proc_vals mem_vals].
    repeat split; try reflexivity; try now apply inserta_paralelo.
    destruct H as [Hp Hm]. unfold muestras; simpl.
    rewrite !combine_snoc; [reflexivity | rewrite ?length_combine; lia ..].
  - intros ahora b Hb. destruct (recorta_antiguas_paralelo cfg ahora b Hb) as (k & Hk).
    exists k. eexists. split; [exact Hk|]. cbn [t_muestras proc_vals mem_vals].
    repeat split; try reflexivity; try now apply en_paralelo_skipn.
    unfold muestras; simpl. now rewrite !combine_skipn.
  - induction ops as [|op ops IH]; intros b Hb.
    + exists b. split; [reflexivity | exact Hb].
    + cbn [ejecuta_todas]. unfold bind. destruct op as [ahora p m | ahora]; cbn [ejecuta].
      * unfold inserta, modify. apply IH. now apply inserta_paralelo.
      * destruct (recorta_antiguas_paralelo cfg ahora b Hb) as (k & Hk). rewrite Hk.
        apply IH. now apply en_paralelo_skipn.
Qed.

Lemma deques_en_paralelo_testigo :
  exists b',
    ejecuta_todas CONFIGURACION [Inserta 65 30 3; Recorta 65; Inserta 66 40 4]
      {| t_muestras := [0; 5]; proc_vals := [10; 20]; mem_vals := [1; 2] |}
    = (Ok tt, b') /\ en_paralelo b'.
Proof.
  apply (proj2 (proj2 (deques_en_paralelo CONFIGURACION))). split; reflexivity.
Defined.

(** ** C5: sixty seconds at one sample per second *)

(** C5, as the script behaves.  Samples at 0, 1, ..., 59 trimmed at 59 with
    the shipped 60 s window are all kept; the left edge of the window is
    [59 - 60 = -1], so their positions are 1, 2, ..., 60, and the width is 1. *)
Theorem ventana_llena (p m : nat -> Q) :
  exists b',
    ejecuta_todas CONFIGURACION (sesenta_segundos p m) buffers_vacios = (Ok tt, b') /\
    length (t_muestras b') = 60%nat /\
    t_muestras b' = segundos 0 60 /\
    proc_vals b' = map p (seq 0 60) /\
    mem_vals b' = map m (seq 0 60) /\
    eje_x CONFIGURACION 59 (t_muestras b') = segundos 1 60 /\
    width CONFIGURACION (eje_x CONFIGURACION 59 (t_muestras b')) == 1.
Proof.
  eexists. split; [vm_compute; reflexivity|]. cbn [t_muestras proc_vals mem_vals].
  repeat split; vm_compute; reflexivity.
Qed.

(** C5 as worded fails: the positions are not 0, 1, ..., 59, since the first
    one is already 1. *)
Lemma ventana_llena_no_desde_cero :
  ~ (exists b',
        ejecuta_todas CONFIGURACION (sesenta_segundos (fun _ => 0) (fun _ => 0)) buffers_vacios
        = (Ok tt, b') /\
        length (t_muestras b') = 60%nat /\
        Forall2 Qeq (eje_x CONFIGURACION 59 (t_muestras b')) (segundos 0 60) /\
        width CONFIGURACION (eje_x CONFIGURACION 59 (t_muestras b')) == 1).
Proof.
  intros (b' & Hrun & _ & Hx & _).
  vm_compute in Hrun. injection Hrun as <-.
  vm_compute in Hx. inversion Hx as [|a a' l l' Hhead _]. discriminate Hhead.
Qed.

(** ** C6: regular sampling leaves no gap *)

Lemma regular_cola (delta a : Q) (ts : list Q) :
  regular delta (a :: ts) -> regular delta ts.
Proof.
  destruct ts as [|b r]; simpl; tauto.
Qed.

Lemma regular_skipn (delta : Q) (k : nat) (ts : list Q) :
  regular delta ts -> regular delta (skipn k ts).
Proof.
  revert k. induction ts as [|a r IH]; intros [|k] H; simpl; auto.
  apply IH. exact (regular_cola _ _ _ H).
Qed.

Lemma regular_snoc (delta u t : Q) (ts0 : list Q) :
  regular delta (ts0 ++ [u]) -> t - u == delta -> regular delta ((ts0 ++ [u]) ++ [t]).
Proof.
  intros H Ht. induction ts0 as [|a r IH]; [simpl; auto|].
  destruct r as [|b r'].
  - simpl in *. tauto.
  - destruct H as [Hab Hr]. split; [exact Hab|]. exact (IH Hr).
Qed.

Lemma regular_no_decreciente (delta : Q) (ts : list Q) :
  0 <= delta -> regular delta ts -> no_decreciente ts.
Proof.
  intros Hd. induction ts as [|a [|b r] IH]; simpl; auto.
  intros [Hab Hr]. split; [lra | now apply IH].
Qed.






(** The first tick of a run: the buffers hold the one sample just taken. *)
Lemma paso_primero (cfg : config) (delta t p m : Q) :
  0 <= VENTANA_SEGUNDOS cfg ->
  paso cfg t p m buffers_vacios
  = (Ok tt, {| t_muestras := [t]; proc_vals := [p]; mem_vals := [m] |}) /\
  en_regimen delta (t + delta) {| t_muestras := [t]; proc_vals := [p]; mem_vals := [m] |}.
Proof.
  intros HW. split.
  - unfold paso, bind, inserta, modify, recorta_antiguas; simpl.
    assert (E : Qltb t (t - VENTANA_SEGUNDOS cfg) = false) by (apply Qltb_false; lra).
    now rewrite E.
  - split; [split; reflexivity|]. split; [exact I|].
    exists [], t. split; [reflexivity|]. lra.
Qed.

(** A later tick: the sample taken [delta] before survives the trim, so at
    least two samples are left. *)
Lemma paso_en_regimen (cfg : config) (delta t p m : Q) (b : buffers) :
  0 < delta -> delta <= VENTANA_SEGUNDOS cfg ->
  en_regimen delta t b ->
  exists b',
    paso cfg t p m b = (Ok tt, b') /\
    en_regimen delta (t + delta) b' /\
    (2 <= length (t_muestras b'))%nat.
Proof.
  intros Hd HW (Hpar & Hreg & ts0 & u & Hts & Hu).
  set (b1 := {| t_muestras := t_muestras b ++ [t];
                proc_vals := proc_vals b ++ [p];
                mem_vals := mem_vals b ++ [m] |}).
  assert (Hpar1 : en_paralelo b1) by now apply inserta_paralelo.
  assert (Hreg1 : regular delta (t_muestras b1)).
  { unfold b1; simpl. rewrite Hts. apply regular_snoc; [now rewrite <- Hts | lra]. }
  assert (Hord1 : no_decreciente (t_muestras b1)).
  { apply (regular_no_decreciente delta); [lra | exact Hreg1]. }
  destruct (recorta_antiguas_prefijo cfg t b1 Hpar1 Hord1) as (k & Hk & _ & Hold & _).
  assert (Hk0 : (k <= length ts0)%nat).
  { destruct (Nat.le_gt_cases k (length ts0)) as [Hle|Hgt]; [exact Hle|exfalso].
    unfold b1 in Hold; simpl in Hold. rewrite Hts, <- app_assoc, firstn_app in Hold.
    apply Forall_app in Hold. destruct Hold as [_ Hold].
    destruct (k - length ts0)%nat as [|j] eqn:Ej; [lia|].
    simpl in Hold. inversion Hold as [|? ? Hu' _]. lra. }
  exists {| t_muestras := skipn k (t_muestras b1);
            proc_vals := skipn k (proc_vals b1);
            mem_vals := skipn k (mem_vals b1) |}.
  split; [exact Hk|].
  assert (Hskip : skipn k (t_muestras b1) = (skipn k ts0 ++ [u]) ++ [t]).
  { unfold b1; simpl. rewrite Hts, <- app_assoc, skipn_app.
    replace (k - length ts0)%nat with 0%nat by lia. simpl. now rewrite <- app_assoc. }
  split; [split; [|split]|].
  - now apply en_paralelo_skipn.
  - cbn [t_muestras]. now apply regular_skipn.
  - exists (skipn k ts0 ++ [u]), t. split; [exact Hskip | reflexivity].
  - cbn [t_muestras]. rewrite Hskip, !length_app. simpl. lia.
Qed.




(** ** C8: a failed query ends the run and leaves no trace of the tick *)

Lemma tic_falla (cfg : config) (l : lectura) (e : excepcion) (st : estado) :
  lectura_falla l e -> tic cfg l st = (Raise e, st).
Proof.
  intros [H | [(util & Hu & Hm) | (util & used & Hu & Hm & ->)]];
    unfold tic, bind; rewrite ?Hu, ?Hm, ?H; reflexivity.
Qed.

Lemma bucle_app (cfg : config) (pre post : list evento) (st st1 : estado) :
  bucle cfg pre st = (EnMarcha, st1) ->
  bucle cfg (pre ++ post) st = bucle cfg post st1.
Proof.
  revert st. induction pre as [|ev pre IH]; intros st H.
  - simpl in H. now injection H as <-.
  - destruct ev as [l|]; [|discriminate]. cbn [app bucle] in *.
    destruct (tic cfg l st) as [[[]|e] st']; [now apply IH|].
    destruct e; discriminate.
Qed.

(** C8.  When the readings of a tick fail, the tick raises with the globals
    as it found them: no row is written and the buffers are untouched.  The
    loop does not go on to the next tick: an exception other than
    [KeyboardInterrupt] ends the run, whatever events would have followed,
    and the [finally] clause only closes the file and the driver.  And a tick
    that returns has got both readings first, then logged their row, then
    put the sample in the buffers. *)
Theorem fallo_de_consulta (cfg : config) :
  (forall (l : lectura) (e : excepcion) (st : estado),
      lectura_falla l e -> tic cfg l st = (Raise e, st)) /\
  (forall (pre post : list evento) (l : lectura) (e : excepcion) (st st1 : estado),
      bucle cfg pre st = (EnMarcha, st1) ->
      lectura_falla l e ->
      e <> KeyboardInterrupt ->
      bucle cfg (pre ++ Tic l :: post) st = (Fallo e, cierra st1) /\
      bufs (cierra st1) = bufs st1 /\
      f_csv (cierra st1) = f_csv st1) /\
  (forall (l : lectura) (st st' : estado),
      tic cfg l st = (Ok tt, st') ->
      lectura_buena l /\
      f_csv st' = f_csv st ++ [fila_de_lectura l] /\
      paso cfg (l_ahora l) (carga_proc_de l) (carga_mem_de l) (bufs st) = (Ok tt, bufs st')).
Proof.
  split; [exact (tic_falla cfg)|]. split.
  - intros pre post l e st st1 Hpre Hl He.
    rewrite (bucle_app cfg pre _ st st1 Hpre). cbn [bucle].
    rewrite (tic_falla cfg l e st1 Hl). repeat split.
    destruct e; congruence.
  - intros l st st' H. unfold tic, bind, fila_de_lectura, carga_proc_de, carga_mem_de in *.
    unfold lectura_buena.
    destruct (l_util l) as [util|e]; [|discriminate].
    destruct (l_mem l) as [[used total]|e]; [|discriminate].
    cbn [consulta ret fst snd] in H. unfold porcentaje_mem in H.
    destruct (total =? 0)%Z eqn:Et; [discriminate|]. apply Z.eqb_neq in Et.
    split; [now exists util, used, total|].
    cbn [ret writerow modify] in H.
    destruct (en_bufs _ _) as [[[]|e] st1] eqn:Eb in H; [|discriminate].
    unfold redibuja, modify in H. injection H as <-. cbn [f_csv bufs].
    unfold en_bufs in Eb. cbn [bufs] in Eb.
    destruct (paso _ _ _ _ _) as [r b1] in Eb |- *. injection Eb as -> <-.
    split; reflexivity.
Qed.

Lemma fallo_de_consulta_testigo :
  let fecha := {| year := 2023; month := 11; day := 14; hour := 12;
                  minute := 0; second := 0; microsecond := 0 |} in
  let buena := {| l_ahora := 100; l_util := Ok 42%Z; l_mem := Ok (1, 2)%Z; l_fecha := fecha |} in
  let mala := {| l_ahora := 101; l_util := Ok 42%Z; l_mem := Raise NVMLError; l_fecha := fecha |} in
  let st1 := snd (bucle CONFIGURACION [Tic buena] (arranque None)) in
  bucle CONFIGURACION ([Tic buena] ++ Tic mala :: [Tic buena]) (arranque None)
  = (Fallo NVMLError, cierra st1) /\
  bufs (cierra st1) = bufs st1 /\
  f_csv (cierra st1) = f_csv st1.
Proof.
  intros fecha buena mala st1.
  apply (proj1 (proj2 (fallo_de_consulta CONFIGURACION))).
  - reflexivity.
  - right. left. exists 42%Z. split; reflexivity.
  - discriminate.
Defined.

(** ** C9: the rows of the CSV log *)

Lemma es_digito_digito (n : Z) : es_digito (digito n) = true.
Proof.
  unfold es_digito, digito.
  assert (H : (0 <= n mod 10 < 10)%Z) by (apply Z.mod_pos_bound; lia).
  rewrite nat_ascii_embedding by lia.
  apply andb_true_intro. split; apply Nat.leb_le; lia.
Qed.

Lemma solo_digitos_app (a b : string) :
  solo_digitos a = true -> solo_digitos b = true -> solo_digitos (a ++ b)%string = true.
Proof.
  intros Ha Hb. induction a as [|c a IH]; [exact Hb|].
  simpl in *. apply andb_prop in Ha. destruct Ha as [Hc Ha]. now rewrite Hc, IH.
Qed.

Lemma length_string_app (a b : string) :
  String.length (a ++ b)%string = (String.length a + String.length b)%nat.
Proof.
  induction a as [|c a IH]; simpl; auto.
Qed.

Lemma digitos_forma (d : nat) (n : Z) :
  solo_digitos (digitos d n) = true /\ String.length (digitos d n) = d.
Proof.
  revert n. induction d as [|d IH]; intros n; [split; reflexivity|].
  destruct (IH (n / 10)%Z) as [Hs Hl]. cbn [digitos]. split.
  - apply solo_digitos_app; [exact Hs|]. cbn [solo_digitos]. now rewrite es_digito_digito.
  - rewrite length_string_app, Hl. cbn [String.length]. lia.
Qed.

Lemma solo_digitos_uint (u : uint) : solo_digitos (NilEmpty.string_of_uint u) = true.
Proof.
  induction u; simpl; auto.
Qed.

(** The integer part always starts with a digit and holds digits only. *)
Lemma entero_forma (n : Z) :
  exists c r, entero n = String c r /\ es_digito c = true /\ solo_digitos r = true.
Proof.
  unfold entero, NilZero.string_of_uint.
  pose proof (solo_digitos_uint (N.to_uint (Z.to_N n))) as H.
  destruct (N.to_uint (Z.to_N n)); simpl in *;
    try (apply andb_prop in H; destruct H as [Hc Hr]); eauto.
Qed.

Lemma tras_digitos_punto (a frac : string) :
  solo_digitos a = true ->
  tras_digitos (a ++ String "." frac)%string = String "." frac.
Proof.
  intros Ha. induction a as [|c a IH]; [reflexivity|].
  simpl in *. apply andb_prop in Ha. destruct Ha as [Hc Ha]. rewrite Hc. now apply IH.
Qed.

(** With one decimal or more asked for, [formato_f] gives exactly that many. *)
Lemma formato_f_decimales (d : nat) (v : Q) : decimales (S d) (formato_f (S d) v) = true.
Proof.
  unfold formato_f.
  set (n := redondea _).
  destruct (entero_forma (n / 10 ^ Z.of_nat (S d))) as (c & r & -> & Hc & Hr).
  destruct (digitos_forma (S d) n) as [Hs Hl].
  assert (Hneg : Ascii.eqb c "-" = false).
  { destruct (Ascii.eqb_spec c "-") as [->|]; [discriminate Hc | reflexivity]. }
  assert (Hcuerpo : decimales_sin_signo (S d) (String c (r ++ String "." (digitos (S d) n)))
                    = true).
  { unfold decimales_sin_signo. cbn [tras_digitos]. rewrite Hc.
    rewrite tras_digitos_punto by exact Hr.
    rewrite Hs, Hl, Nat.eqb_refl. reflexivity. }
  unfold decimales. destruct (Qltb v 0).
  - change ("-" ++ String c r ++ "." ++ digitos (S d) n)%string
      with (String "-" (String c (r ++ String "." (digitos (S d) n)))).
    change (Ascii.eqb "-" "-") with true. exact Hcuerpo.
  - change ("" ++ String c r ++ "." ++ digitos (S d) n)%string
      with (String c (r ++ String "." (digitos (S d) n))).
    cbv beta iota. rewrite Hneg. exact Hcuerpo.
Qed.

Lemma ajusta_app (p1 p2 : list clase) (s1 s2 : string) :
  ajusta p1 s1 = true -> ajusta p2 s2 = true -> ajusta (p1 ++ p2) (s1 ++ s2)%string = true.
Proof.
  revert s1. induction p1 as [|k p1 IH]; intros s1 H1 H2.
  - destruct s1; [exact H2 | discriminate].
  - destruct k, s1; try discriminate; simpl in *;
      apply andb_prop in H1; destruct H1 as [Hc H1]; rewrite Hc; now apply IH.
Qed.

Lemma ajusta_digitos (d : nat) (n : Z) : ajusta (repeat Dig d) (digitos d n) = true.
Proof.
  revert n. induction d as [|d IH]; intros n; [reflexivity|].
  change (repeat Dig (S d)) with (Dig :: repeat Dig d).
  rewrite repeat_cons. cbn [digitos]. apply ajusta_app; [apply IH|].
  cbn [ajusta]. now rewrite es_digito_digito.
Qed.

(** The date column never carries a fraction of a second. *)
Lemma isoformat_seconds_forma (dt : datetime) :
  ajusta FECHA_AL_SEGUNDO (isoformat_seconds dt) = true.
Proof.
  unfold isoformat_seconds.
  change FECHA_AL_SEGUNDO with
    (repeat Dig 4 ++ [Car "-"] ++ repeat Dig 2 ++ [Car "-"] ++ repeat Dig 2 ++ [Car " "]
     ++ repeat Dig 2 ++ [Car ":"] ++ repeat Dig 2 ++ [Car ":"] ++ repeat Dig 2).
  repeat (apply ajusta_app; [first [apply ajusta_digitos | reflexivity] |]).
  apply ajusta_digitos.
Qed.

Lemma fila_de_muestra_forma (ahora : Q) (fecha : datetime) (carga_proc carga_mem : Q) :
  fila_bien_formada (fila_de_muestra ahora fecha carga_proc carga_mem) = true.
Proof.
  unfold fila_bien_formada, fila_de_muestra.
  now rewrite !formato_f_decimales, isoformat_seconds_forma.
Qed.






(** ** A tick on the states of a run *)

(** With good readings and a clock that has not gone back, a tick returns,
    leaves a valid buffer inside its window, and redraws from that buffer. *)
Lemma tic_valido (cfg : config) (ahora : Q) (l : lectura) (st : estado) :
  0 <= VENTANA_SEGUNDOS cfg ->
  buffer_valido ahora (bufs st) ->
  ahora <= l_ahora l ->
  lectura_buena l ->
  exists st',
    tic cfg l st = (Ok tt, st') /\
    buffer_valido (l_ahora l) (bufs st') /\
    Forall (fun t => l_ahora l - VENTANA_SEGUNDOS cfg <= t <= l_ahora l) (t_muestras (bufs st')) /\
    figura st' = Some (dibuja cfg (l_ahora l) (bufs st')).
Proof.
  intros HW Hb Hclock (util & used & total & Hu & Hm & Ht).
  unfold tic, bind. rewrite Hu, Hm.
  cbn [consulta ret fst snd]. unfold porcentaje_mem.
  apply Z.eqb_neq in Ht. rewrite Ht. cbn [ret writerow modify].
  unfold en_bufs. cbn [bufs].
  destruct (paso_valido cfg ahora (l_ahora l) (inject_Z util)
              (inject_Z used / inject_Z total * 100) (bufs st) HW Hb Hclock)
    as (b' & Hp & Hb' & Hwin & _).
  rewrite Hp. unfold redibuja, modify. eexists. split; [reflexivity|].
  cbn [bufs figura]. repeat split; try apply Hb'. exact Hwin.
Qed.

(** * Further properties of the script *)

(** ** Colours are always valid RGB triples *)




(** ** What the trim can and cannot do *)

Lemma recorta_bucle_sufijos (corte : Q) (ts ps ms : list Q) :
  exists kt kp km : nat,
    snd (recorta_bucle corte ts ps ms)
    = {| t_muestras := skipn kt ts; proc_vals := skipn kp ps; mem_vals := skipn km ms |} /\
    (fst (recorta_bucle corte ts ps ms) = Ok tt /\ kt = kp /\ kt = km /\
     match skipn kt ts with [] => True | t0 :: _ => corte <= t0 end
     \/
     fst (recorta_bucle corte ts ps ms) = Raise IndexError /\
     (length ps < length ts \/ length ms < length ts)%nat).
Proof.
  revert ps ms. induction ts as [|t0 ts' IH]; intros ps ms.
  - exists 0%nat, 0%nat, 0%nat. simpl. split; [reflexivity|]. left. auto.
  - cbn [recorta_bucle]. destruct (Qltb t0 corte) eqn:E.
    + destruct ps as [|p ps'].
      * exists 1%nat, 0%nat, 0%nat. simpl. split; [reflexivity|]. right. split; [reflexivity|].
        left. lia.
      * destruct ms as [|m ms'].
        -- exists 1%nat, 1%nat, 0%nat. simpl. split; [reflexivity|]. right.
           split; [reflexivity|]. right. lia.
        -- destruct (IH ps' ms') as (kt & kp & km & Hb & Hr).
           exists (S kt), (S kp), (S km). cbn [skipn]. split; [exact Hb|].
           destruct Hr as [(Hok & -> & -> & Hh) | (Hex & Hlen)].
           ++ left. auto.
           ++ right. split; [exact Hex|]. simpl. lia.
    + exists 0%nat, 0%nat, 0%nat. simpl. split; [reflexivity|]. left.
      repeat split. now apply Qltb_false.
Qed.

(** Whatever the buffers hold, [recorta_antiguas] only removes from the left
    end: each deque it leaves is a suffix of the deque it found.  It returns
    or raises [IndexError], nothing else, and it raises only on deques that
    were not in lockstep.  When it returns, the three deques lost the same
    number of entries and the oldest timestamp left, if any, is inside the
    window. *)
Theorem recorta_solo_por_la_izquierda (cfg : config) (ahora : Q) (b : buffers) :
  exists kt kp km : nat,
    snd (recorta_antiguas cfg ahora b)
    = {| t_muestras := skipn kt (t_muestras b);
         proc_vals := skipn kp (proc_vals b);
         mem_vals := skipn km (mem_vals b) |} /\
    (fst (recorta_antiguas cfg ahora b) = Ok tt /\ kt = kp /\ kt = km /\
     match skipn kt (t_muestras b) with
     | [] => True
     | t0 :: _ => ahora - VENTANA_SEGUNDOS cfg <= t0
     end
     \/
     fst (recorta_antiguas cfg ahora b) = Raise IndexError /\ ~ en_paralelo b).
Proof.
  unfold recorta_antiguas.
  destruct (recorta_bucle_sufijos (ahora - VENTANA_SEGUNDOS cfg)
              (t_muestras b) (proc_vals b) (mem_vals b)) as (kt & kp & km & Hb & Hr).
  exists kt, kp, km. split; [exact Hb|].
  destruct Hr as [Hok | (Hex & Hlen)]; [left; exact Hok | right].
  split; [exact Hex|]. intros [Hp Hm]. lia.
Qed.

Lemma recorta_bucle_dos (c1 c2 : Q) (ts ps ms : list Q) :
  length ps = length ts -> length ms = length ts -> c1 <= c2 ->
  exists b1,
    recorta_bucle c1 ts ps ms = (Ok tt, b1) /\
    recorta_bucle c2 (t_muestras b1) (proc_vals b1) (mem_vals b1)
    = recorta_bucle c2 ts ps ms.
Proof.
  intros Hp Hm Hc. revert ps ms Hp Hm. induction ts as [|t0 ts' IH]; intros ps ms Hp Hm.
  - eexists. split; reflexivity.
  - destruct ps as [|p ps']; [discriminate|]. destruct ms as [|m ms']; [discriminate|].
    cbn [recorta_bucle]. destruct (Qltb t0 c1) eqn:E1.
    + assert (E2 : Qltb t0 c2 = true) by (apply Qltb_true; apply Qltb_true in E1; lra).
      rewrite E2. apply IH; simpl in *; lia.
    + eexists. split; reflexivity.
Qed.

(** Trimming at one time and then at a later one is trimming at the later
    one; in particular a second trim at the same time changes nothing.  This
    needs the deques in lockstep but no order on the timestamps. *)
Theorem recorta_dos_veces (cfg : config) (ahora1 ahora2 : Q) (b : buffers) :
  en_paralelo b ->
  ahora1 <= ahora2 ->
  (recorta_antiguas cfg ahora1 ;;; recorta_antiguas cfg ahora2)%py b
  = recorta_antiguas cfg ahora2 b /\
  (recorta_antiguas cfg ahora1 ;;; recorta_antiguas cfg ahora1)%py b
  = recorta_antiguas cfg ahora1 b.
Proof.
  intros [Hp Hm] Ht. unfold bind, recorta_antiguas. split.
  - destruct (recorta_bucle_dos (ahora1 - VENTANA_SEGUNDOS cfg) (ahora2 - VENTANA_SEGUNDOS cfg)
                _ _ _ Hp Hm) as (b1 & H1 & H2); [lra|].
    rewrite H1. exact H2.
  - destruct (recorta_bucle_dos (ahora1 - VENTANA_SEGUNDOS cfg) (ahora1 - VENTANA_SEGUNDOS cfg)
                _ _ _ Hp Hm) as (b1 & H1 & H2); [lra|].
    rewrite H1 in H2. rewrite H1. exact H2.
Qed.

Lemma recorta_dos_veces_testigo :
  (recorta_antiguas CONFIGURACION 62 ;;; recorta_antiguas CONFIGURACION 66)%py
    {| t_muestras := [0; 5; 65]; proc_vals := [10; 20; 30]; mem_vals := [1; 2; 3] |}
  = recorta_antiguas CONFIGURACION 66
      {| t_muestras := [0; 5; 65]; proc_vals := [10; 20; 30]; mem_vals := [1; 2; 3] |} /\
  (recorta_antiguas CONFIGURACION 62 ;;; recorta_antiguas CONFIGURACION 62)%py
    {| t_muestras := [0; 5; 65]; proc_vals := [10; 20; 30]; mem_vals := [1; 2; 3] |}
  = recorta_antiguas CONFIGURACION 62
      {| t_muestras := [0; 5; 65]; proc_vals := [10; 20; 30]; mem_vals := [1; 2; 3] |}.
Proof.
  apply (recorta_dos_veces CONFIGURACION 62 66
           {| t_muestras := [0; 5; 65]; proc_vals := [10; 20; 30]; mem_vals := [1; 2; 3] |}).
  - split; reflexivity.
  - orden.
Defined.

(** ** The sample of the tick is never trimmed *)

Lemma skipn_snoc {A : Type} (k : nat) (l : list A) (a : A) :
  (k <= length l)%nat -> skipn k (l ++ [a]) = skipn k l ++ [a].
Proof.
  intros H. rewrite skipn_app. replace (k - length l)%nat with 0%nat by lia. reflexivity.
Qed.

Lemma last_eje_x (cfg : config) (ahora : Q) (l : list Q) (t : Q) :
  last (eje_x cfg ahora (l ++ [t])) 0 = t - (ahora - VENTANA_SEGUNDOS cfg).
Proof.
  rewrite eje_x_map, map_app. cbn [map]. apply last_last.
Qed.

(** With a window that is not negative, the insert-and-trim of a tick on
    lockstep deques returns and keeps the sample it has just appended as the
    last entry of each deque, after dropping some [k] entries from the left:
    the buffer is never empty when the positions are computed, it grows by
    at most one entry per tick, and the newest bar is centred exactly on the
    right edge [VENTANA_SEGUNDOS] of the axis.  No order on the timestamps is
    needed. *)
Theorem paso_conserva_la_nueva (cfg : config) (ahora p m : Q) (b : buffers) :
  0 <= VENTANA_SEGUNDOS cfg ->
  en_paralelo b ->
  exists (k : nat) (b' : buffers),
    paso cfg ahora p m b = (Ok tt, b') /\
    (k <= length (t_muestras b))%nat /\
    t_muestras b' = skipn k (t_muestras b) ++ [ahora] /\
    proc_vals b' = skipn k (proc_vals b) ++ [p] /\
    mem_vals b' = skipn k (mem_vals b) ++ [m] /\
    length (t_muestras b') = (length (t_muestras b) + 1 - k)%nat /\
    last (eje_x cfg ahora (t_muestras b')) 0 == VENTANA_SEGUNDOS cfg.
Proof.
  intros HW Hb. pose proof Hb as [Hp Hm].
  set (b1 := {| t_muestras := t_muestras b ++ [ahora];
                proc_vals := proc_vals b ++ [p];
                mem_vals := mem_vals b ++ [m] |}).
  assert (Hb1 : en_paralelo b1) by now apply inserta_paralelo.
  destruct Hb1 as [Hp1 Hm1].
  destruct (recorta_bucle_paralelo (ahora - VENTANA_SEGUNDOS cfg) _ _ _ Hp1 Hm1)
    as (k & Hk & _ & Hold & _).
  assert (Hk0 : (k <= length (t_muestras b))%nat).
  { destruct (Nat.le_gt_cases k (length (t_muestras b))) as [Hle|Hgt]; [exact Hle|exfalso].
    unfold b1 in Hold; cbn [t_muestras] in Hold. rewrite firstn_app in Hold.
    apply Forall_app in Hold. destruct Hold as [_ Hold].
    destruct (k - length (t_muestras b))%nat as [|j] eqn:Ej; [lia|].
    simpl in Hold. inversion Hold as [|? ? Hlt _]. lra. }
  exists k. eexists. split; [exact Hk|]. unfold b1. cbn [t_muestras proc_vals mem_vals].
  rewrite !skipn_snoc by lia. repeat split; try reflexivity; try exact Hk0.
  - rewrite length_app, length_skipn. simpl. lia.
  - rewrite last_eje_x. lra.
Qed.

Lemma paso_conserva_la_nueva_testigo :
  exists (k : nat) (b' : buffers),
    paso CONFIGURACION 65 30 3
      {| t_muestras := [0; 5]; proc_vals := [10; 20]; mem_vals := [1; 2] |}
    = (Ok tt, b') /\
    (k <= length [0; 5])%nat /\
    t_muestras b' = skipn k [0; 5] ++ [65] /\
    proc_vals b' = skipn k [10; 20] ++ [30] /\
    mem_vals b' = skipn k [1; 2] ++ [3] /\
    length (t_muestras b') = (length [0; 5] + 1 - k)%nat /\
    last (eje_x CONFIGURACION 65 (t_muestras b')) 0 == VENTANA_SEGUNDOS CONFIGURACION.
Proof.
  apply (paso_conserva_la_nueva CONFIGURACION 65 30 3
           {| t_muestras := [0; 5]; proc_vals := [10; 20]; mem_vals := [1; 2] |}).
  - orden.
  - split; reflexivity.
Defined.

(** ** What a redraw hands to the plot *)

(** On lockstep deques the two [bar] calls get as many positions as heights
    and as colours, for both series, and the heights are the buffered loads
    in buffer order, each with the colour of its own load. *)
Theorem dibuja_coherente (cfg : config) (ahora : Q) (b : buffers) :
  en_paralelo b ->
  let c := dibuja cfg ahora b in
  length (c_x c) = length (t_muestras b) /\
  length (c_proc c) = length (c_x c) /\
  length (c_colores_proc c) = length (c_x c) /\
  length (c_mem c) = length (c_x c) /\
  length (c_colores_mem c) = length (c_x c) /\
  (forall i : nat,
      nth_error (c_colores_proc c) i = option_map color_por_porcentaje (nth_error (c_proc c) i) /\
      nth_error (c_colores_mem c) i = option_map color_por_porcentaje (nth_error (c_mem c) i)).
Proof.
  intros [Hp Hm]. unfold dibuja. cbn [c_x c_proc c_colores_proc c_mem c_colores_mem].
  rewrite eje_x_map, !length_map. repeat split; auto; apply nth_error_map.
Qed.

Lemma dibuja_coherente_testigo :
  let c := dibuja CONFIGURACION 65
             {| t_muestras := [5; 65]; proc_vals := [20; 30]; mem_vals := [2; 3] |} in
  length (c_x c) = length [5; 65] /\
  length (c_proc c) = length (c_x c) /\
  length (c_colores_proc c) = length (c_x c) /\
  length (c_mem c) = length (c_x c) /\
  length (c_colores_mem c) = length (c_x c) /\
  (forall i : nat,
      nth_error (c_colores_proc c) i = option_map color_por_porcentaje (nth_error (c_proc c) i) /\
      nth_error (c_colores_mem c) i = option_map color_por_porcentaje (nth_error (c_mem c) i)).
Proof.
  apply (dibuja_coherente CONFIGURACION 65
           {| t_muestras := [5; 65]; proc_vals := [20; 30]; mem_vals := [2; 3] |}).
  split; reflexivity.
Defined.

(** ** The width is the span divided by the number of gaps *)

Lemma last_cons_defecto (c : Q) (l : list Q) (d d' : Q) :
  last (c :: l) d = last (c :: l) d'.
Proof.
  revert c. induction l as [|e l IH]; intros c; [reflexivity|].
  change (last (c :: e :: l) d) with (last (e :: l) d).
  change (last (c :: e :: l) d') with (last (e :: l) d'). apply IH.
Qed.

Lemma last_cons_cabeza (b : Q) (r : list Q) (a : Q) : last (b :: r) a = last r b.
Proof.
  destruct r as [|c r]; [reflexivity|].
  change (last (b :: c :: r) a) with (last (c :: r) a). apply last_cons_defecto.
Qed.









(** ** Every way a tick can go *)

(** A tick either fails at its readings and leaves the globals alone, or it
    logs its row and runs the insert-and-trim; when that returns it redraws,
    when that raises the row stays logged and the figure is not redrawn. *)
Lemma tic_casos (cfg : config) (l : lectura) (st : estado) :
  (exists e, lectura_falla l e /\ tic cfg l st = (Raise e, st)) \/
  (lectura_buena l /\
   exists r b',
     paso cfg (l_ahora l) (carga_proc_de l) (carga_mem_de l) (bufs st) = (r, b') /\
     tic cfg l st
     = (r, {| bufs := b';
              f_csv := f_csv st ++ [fila_de_lectura l];
              f_csv_abierto := f_csv_abierto st;
              nvml_activo := nvml_activo st;
              figura := match r with
                        | Ok _ => Some (dibuja cfg (l_ahora l) b')
                        | Raise _ => figura st
                        end |})).
Proof.
  destruct (l_util l) as [util|e] eqn:Eu.
  - destruct (l_mem l) as [[used total]|e] eqn:Em.
    + destruct (Z.eq_dec total 0) as [->|Ht].
      * left. exists ZeroDivisionError. assert (Hf : lectura_falla l ZeroDivisionError).
        { right. right. exists util, used. auto. }
        split; [exact Hf | now apply tic_falla].
      * right. split; [now exists util, used, total|].
        unfold tic, bind, fila_de_lectura, carga_proc_de, carga_mem_de. rewrite Eu, Em.
        cbn [consulta ret fst snd]. unfold porcentaje_mem.
        pose proof Ht as Hb. apply Z.eqb_neq in Hb. rewrite Hb. cbn [ret writerow modify].
        unfold en_bufs. cbn [bufs f_csv f_csv_abierto nvml_activo figura].
        destruct (paso cfg (l_ahora l) (inject_Z util)
                    (inject_Z used / inject_Z total * 100) (bufs st)) as [[[]|e] b'].
        -- exists (Ok tt), b'. split; reflexivity.
        -- exists (Raise e), b'. split; reflexivity.
    + left. exists e. assert (Hf : lectura_falla l e).
      { right. left. exists util. auto. }
      split; [exact Hf | now apply tic_falla].
  - left. exists e. assert (Hf : lectura_falla l e) by now left.
    split; [exact Hf | now apply tic_falla].
Qed.

(** A tick changes the log by at most one row at its end, a well-formed
    one, and never touches the two open flags. *)
Lemma tic_efectos (cfg : config) (l : lectura) (st : estado) :
  exists rows,
    f_csv (snd (tic cfg l st)) = f_csv st ++ rows /\
    (length rows <= 1)%nat /\
    Forall (fun r => fila_bien_formada r = true) rows /\
    f_csv_abierto (snd (tic cfg l st)) = f_csv_abierto st /\
    nvml_activo (snd (tic cfg l st)) = nvml_activo st.
Proof.
  destruct (tic_casos cfg l st) as [(e & _ & ->) | (_ & r & b' & _ & ->)].
  - exists []. cbn [snd]. rewrite app_nil_r. repeat split; auto.
  - exists [fila_de_lectura l]. cbn [snd f_csv f_csv_abierto nvml_activo].
    repeat split; auto. constructor; [apply fila_de_muestra_forma | constructor].
Qed.

(** ** How a run stops *)

Lemma bucle_terminal (cfg : config) (evs post : list evento) (st : estado) :
  fst (bucle cfg evs st) <> EnMarcha ->
  bucle cfg (evs ++ post) st = bucle cfg evs st /\
  f_csv_abierto (snd (bucle cfg evs st)) = false /\
  nvml_activo (snd (bucle cfg evs st)) = false.
Proof.
  revert st. induction evs as [|ev evs IH]; intros st H.
  - simpl in H. congruence.
  - destruct ev as [l|]; cbn [app bucle] in *.
    + destruct (tic cfg l st) as [[[]|e] st1]; [now apply IH|].
      destruct e; auto.
    + auto.
Qed.

Lemma bucle_en_marcha (cfg : config) (evs : list evento) (st : estado) :
  fst (bucle cfg evs st) = EnMarcha ->
  f_csv_abierto (snd (bucle cfg evs st)) = f_csv_abierto st /\
  nvml_activo (snd (bucle cfg evs st)) = nvml_activo st.
Proof.
  revert st. induction evs as [|ev evs IH]; intros st H.
  - auto.
  - destruct ev as [l|]; cbn [bucle] in *; [|discriminate].
    destruct (tic_efectos cfg l st) as (_ & _ & _ & _ & Ha & Hn).
    destruct (tic cfg l st) as [[[]|e] st1]; cbn [snd] in *.
    + rewrite <- Ha, <- Hn. now apply IH.
    + destruct e; discriminate.
Qed.

(** The operator's interrupt between two ticks stops the run there: the
    state is the one the ticks before left, with the file and the driver
    closed, and the events after it are never looked at.  More generally, a
    run that has stopped or failed has closed both and stays as it is
    whatever events are added; a run still going has closed neither. *)
Theorem bucle_parada (cfg : config) :
  (forall (pre post : list evento) (st st1 : estado),
      bucle cfg pre st = (EnMarcha, st1) ->
      bucle cfg (pre ++ Interrupcion :: post) st = (Detenido, cierra st1) /\
      f_csv (cierra st1) = f_csv st1 /\
      bufs (cierra st1) = bufs st1) /\
  (forall (evs post : list evento) (st : estado),
      fst (bucle cfg evs st) <> EnMarcha ->
      bucle cfg (evs ++ post) st = bucle cfg evs st /\
      f_csv_abierto (snd (bucle cfg evs st)) = false /\
      nvml_activo (snd (bucle cfg evs st)) = false) /\
  (forall (evs : list evento) (st : estado),
      fst (bucle cfg evs st) = EnMarcha ->
      f_csv_abierto (snd (bucle cfg evs st)) = f_csv_abierto st /\
      nvml_activo (snd (bucle cfg evs st)) = nvml_activo st).
Proof.
  split; [|split].
  - intros pre post st st1 H. rewrite (bucle_app cfg pre _ st st1 H). repeat split.
  - exact (bucle_terminal cfg).
  - exact (bucle_en_marcha cfg).
Qed.

Lemma bucle_parada_testigo :
  let fecha := {| year := 2023; month := 11; day := 14; hour := 12;
                  minute := 0; second := 0; microsecond := 0 |} in
  let buena := {| l_ahora := 100; l_util := Ok 42%Z; l_mem := Ok (1, 2)%Z; l_fecha := fecha |} in
  let st1 := snd (bucle CONFIGURACION [Tic buena] (arranque None)) in
  bucle CONFIGURACION ([Tic buena] ++ Interrupcion :: [Tic buena]) (arranque None)
  = (Detenido, cierra st1) /\
  f_csv (cierra st1) = f_csv st1 /\
  bufs (cierra st1) = bufs st1.
Proof.
  intros fecha buena st1.
  apply (proj1 (bucle_parada CONFIGURACION)). reflexivity.
Defined.

(** ** The log only grows *)


(** ** The row is logged before the buffers are touched *)

(** With good readings a tick always logs its row, whether or not the
    insert-and-trim that follows returns: the tick ends as that step ends,
    the buffers are the ones that step left, and the figure is redrawn from
    them only when it returned. *)
Theorem tic_registra_primero (cfg : config) (l : lectura) (st : estado) :
  lectura_buena l ->
  let r := paso cfg (l_ahora l) (carga_proc_de l) (carga_mem_de l) (bufs st) in
  f_csv (snd (tic cfg l st)) = f_csv st ++ [fila_de_lectura l] /\
  fst (tic cfg l st) = fst r /\
  bufs (snd (tic cfg l st)) = snd r /\
  figura (snd (tic cfg l st))
  = match fst r with
    | Ok _ => Some (dibuja cfg (l_ahora l) (snd r))
    | Raise _ => figura st
    end.
Proof.
  intros Hl. cbv zeta.
  destruct (tic_casos cfg l st) as [(e & Hf & _) | (_ & r & b' & -> & ->)].
  - exfalso. destruct Hl as (util & used & total & Hu & Hm & Ht).
    destruct Hf as [H | [(u & _ & H) | (u & us & _ & H & _)]]; congruence.
  - repeat split.
Qed.

Lemma tic_registra_primero_testigo :
  let l := {| l_ahora := 100; l_util := Ok 42%Z; l_mem := Ok (1, 2)%Z;
              l_fecha := {| year := 2023; month := 11; day := 14; hour := 12;
                            minute := 0; second := 0; microsecond := 0 |} |} in
  let st := {| bufs := {| t_muestras := [0; 1]; proc_vals := []; mem_vals := [] |};
               f_csv := [CABECERA]; f_csv_abierto := true; nvml_activo := true;
               figura := None |} in
  let r := paso CONFIGURACION (l_ahora l) (carga_proc_de l) (carga_mem_de l) (bufs st) in
  f_csv (snd (tic CONFIGURACION l st)) = f_csv st ++ [fila_de_lectura l] /\
  fst (tic CONFIGURACION l st) = fst r /\
  bufs (snd (tic CONFIGURACION l st)) = snd r /\
  figura (snd (tic CONFIGURACION l st))
  = match fst r with
    | Ok _ => Some (dibuja CONFIGURACION (l_ahora l) (snd r))
    | Raise _ => figura st
    end.
Proof.
  intros l st.
  apply (tic_registra_primero CONFIGURACION l st).
  exists 42%Z, 1%Z, 2%Z. repeat split. discriminate.
Defined.

(** ** A run on a clock that never goes back *)

Lemma eje_x_en_rango (cfg : config) (ahora : Q) (ts : list Q) :
  Forall (fun t => ahora - VENTANA_SEGUNDOS cfg <= t <= ahora) ts ->
  Forall (fun x => 0 <= x <= VENTANA_SEGUNDOS cfg) (eje_x cfg ahora ts).
Proof.
  intros H. rewrite eje_x_map. apply Forall_map.
  eapply Forall_impl; [|exact H]. simpl. intros t Ht. lra.
Qed.

Lemma bucle_valido (cfg : config) (ls : list lectura) :
  0 <= VENTANA_SEGUNDOS cfg ->
  Forall lectura_buena ls ->
  forall (st : estado) (ahora : Q),
    buffer_valido ahora (bufs st) ->
    no_decreciente (ahora :: map l_ahora ls) ->
    exists st',
      bucle cfg (map Tic ls) st = (EnMarcha, st') /\
      buffer_valido (last (map l_ahora ls) ahora) (bufs st') /\
      (ls <> [] ->
       Forall (fun t => last (map l_ahora ls) ahora - VENTANA_SEGUNDOS cfg <= t
                        <= last (map l_ahora ls) ahora) (t_muestras (bufs st')) /\
       figura st' = Some (dibuja cfg (last (map l_ahora ls) ahora) (bufs st'))).
Proof.
  intros HW Hls. induction Hls as [|l ls Hl _ IH]; intros st ahora Hb Hclock.
  - exists st. split; [reflexivity|]. split; [exact Hb | congruence].
  - cbn [map] in Hclock. destruct Hclock as [Hle Hclock].
    destruct (tic_valido cfg ahora l st HW Hb Hle Hl) as (st1 & Ht & Hb1 & Hwin1 & Hfig1).
    destruct (IH st1 (l_ahora l) Hb1 Hclock) as (st' & Hrun & Hb' & Hlast).
    exists st'. cbn [map bucle]. rewrite Ht, last_cons_cabeza.
    split; [exact Hrun|]. split; [exact Hb'|]. intros _.
    destruct ls as [|l2 ls2]; [|apply Hlast; discriminate].
    cbn in Hrun. injection Hrun as <-. cbn [map last]. split; assumption.
Qed.

(** From start-up, through any number of ticks with good readings on a clock
    that never goes back, with a window that is not negative: every tick
    returns and the run is still going; the deques are in lockstep with
    non-decreasing timestamps, all of them inside the window of the last
    tick; and the figure on screen is the one drawn from these buffers at
    the last tick, every bar centred between [0] and [VENTANA_SEGUNDOS]. *)
Theorem corrida_valida (cfg : config) (previo : option (list fila))
        (l0 : lectura) (ls : list lectura) :
  0 <= VENTANA_SEGUNDOS cfg ->
  Forall lectura_buena (l0 :: ls) ->
  no_decreciente (map l_ahora (l0 :: ls)) ->
  let ahora := last (map l_ahora (l0 :: ls)) 0 in
  exists st',
    bucle cfg (map Tic (l0 :: ls)) (arranque previo) = (EnMarcha, st') /\
    en_paralelo (bufs st') /\
    no_decreciente (t_muestras (bufs st')) /\
    Forall (fun t => ahora - VENTANA_SEGUNDOS cfg <= t <= ahora) (t_muestras (bufs st')) /\
    figura st' = Some (dibuja cfg ahora (bufs st')) /\
    Forall (fun x => 0 <= x <= VENTANA_SEGUNDOS cfg) (c_x (dibuja cfg ahora (bufs st'))).
Proof.
  intros HW Hls Hclock. cbv zeta.
  assert (Hb0 : buffer_valido (l_ahora l0) (bufs (arranque previo))).
  { split; [split; reflexivity|]. split; [exact I | constructor]. }
  assert (Hclock0 : no_decreciente (l_ahora l0 :: map l_ahora (l0 :: ls))).
  { split; [lra | exact Hclock]. }
  destruct (bucle_valido cfg (l0 :: ls) HW Hls (arranque previo) (l_ahora l0) Hb0 Hclock0)
    as (st' & Hrun & (Hpar & Hord & _) & Hlast).
  destruct Hlast as [Hwin Hfig]; [discriminate|].
  change (map l_ahora (l0 :: ls)) with (l_ahora l0 :: map l_ahora ls) in *.
  rewrite (last_cons_defecto (l_ahora l0) (map l_ahora ls) 0 (l_ahora l0)).
  exists st'. split; [exact Hrun|]. split; [exact Hpar|]. split; [exact Hord|].
  split; [exact Hwin|]. split; [exact Hfig|].
  unfold dibuja. cbn [c_x]. now apply eje_x_en_rango.
Qed.

Lemma corrida_valida_testigo :
  let fecha := {| year := 2023; month := 11; day := 14; hour := 12;
                  minute := 0; second := 0; microsecond := 0 |} in
  let l0 := {| l_ahora := 100; l_util := Ok 42%Z; l_mem := Ok (1, 2)%Z; l_fecha := fecha |} in
  let l1 := {| l_ahora := 170; l_util := Ok 43%Z; l_mem := Ok (1, 4)%Z; l_fecha := fecha |} in
  let ahora := last (map l_ahora [l0; l1]) 0 in
  exists st',
    bucle CONFIGURACION (map Tic [l0; l1]) (arranque None) = (EnMarcha, st') /\
    en_paralelo (bufs st') /\
    no_decreciente (t_muestras (bufs st')) /\
    Forall (fun t => ahora - VENTANA_SEGUNDOS CONFIGURACION <= t <= ahora)
           (t_muestras (bufs st')) /\
    figura st' = Some (dibuja CONFIGURACION ahora (bufs st')) /\
    Forall (fun x => 0 <= x <= VENTANA_SEGUNDOS CONFIGURACION)
           (c_x (dibuja CONFIGURACION ahora (bufs st'))).
Proof.
  intros fecha l0 l1.
  apply (corrida_valida CONFIGURACION None l0 [l1]).
  - orden.
  - repeat constructor.
    + exists 42%Z, 1%Z, 2%Z. repeat split. discriminate.
    + exists 43%Z, 1%Z, 4%Z. repeat split. discriminate.
  - simpl. repeat split. orden.
Defined.

(** ** The memory load *)



(** ** Regular sampling keeps the buffer bounded *)

Lemma no_decreciente_ultimo (l : list Q) (u : Q) :
  no_decreciente (l ++ [u]) -> Forall (fun t => t <= u) (l ++ [u]).
Proof.
  induction l as [|a l IH]; intros H.
  - repeat constructor. lra.
  - pose proof (no_decreciente_cabeza _ _ H) as Ha.
    constructor.
    + rewrite Forall_forall in Ha. apply Ha. apply in_or_app. right. now left.
    + apply IH. exact (no_decreciente_cola _ _ H).
Qed.

Lemma regular_tramo (delta a : Q) (l : list Q) :
  regular delta (a :: l) -> last l a - a == inject_Z (Z.of_nat (length l)) * delta.
Proof.
  revert a. induction l as [|b r IH]; intros a H.
  - cbn [last length]. change (inject_Z (Z.of_nat 0)) with 0. lra.
  - destruct H as [Hab Hr]. specialize (IH b Hr).
    rewrite (last_cons_cabeza b r a).
    cbn [length]. rewrite Nat2Z.inj_succ, <- Z.add_1_r, inject_Z_plus.
    change (inject_Z 1) with 1. lra.
Qed.

Lemma paso_regimen_ventana (cfg : config) (delta t p m : Q) (b : buffers) :
  0 < delta -> delta <= VENTANA_SEGUNDOS cfg ->
  en_regimen delta t b ->
  exists b',
    paso cfg t p m b = (Ok tt, b') /\
    en_regimen delta (t + delta) b' /\
    Forall (fun x => t - VENTANA_SEGUNDOS cfg <= x) (t_muestras b').
Proof.
  intros Hd HW Hb.
  destruct (paso_en_regimen cfg delta t p m b Hd HW Hb) as (b' & Hrun & Hb' & _).
  exists b'. split; [exact Hrun|]. split; [exact Hb'|].
  destruct Hb as (Hpar & Hreg & ts0 & u & Hts & Hu).
  assert (Hord : no_decreciente (t_muestras b)).
  { apply (regular_no_decreciente delta); [lra | exact Hreg]. }
  assert (Hval : buffer_valido u b).
  { split; [exact Hpar|]. split; [exact Hord|]. rewrite Hts in *.
    now apply no_decreciente_ultimo. }
  destruct (paso_valido cfg u t p m b) as (b2 & Hrun2 & _ & Hwin & _); [lra | exact Hval | lra |].
  rewrite Hrun in Hrun2. injection Hrun2 as <-.
  eapply Forall_impl; [|exact Hwin]. simpl. intros x Hx. lra.
Qed.

Lemma muestreo_regimen_ventana (cfg : config) (delta : Q) (cargas : list (Q * Q)) :
  0 < delta -> delta <= VENTANA_SEGUNDOS cfg ->
  forall (t : Q) (b : buffers),
    en_regimen delta t b ->
    Forall (fun x => t - delta - VENTANA_SEGUNDOS cfg <= x) (t_muestras b) ->
    exists b' t',
      muestreo cfg delta t cargas b = (Ok tt, b') /\
      en_regimen delta t' b' /\
      Forall (fun x => t' - delta - VENTANA_SEGUNDOS cfg <= x) (t_muestras b').
Proof.
  intros Hd HW. induction cargas as [|[p m] r IH]; intros t b Hb Hwin.
  - exists b, t. auto.
  - destruct (paso_regimen_ventana cfg delta t p m b Hd HW Hb) as (b1 & Hrun1 & Hb1 & Hwin1).
    destruct (IH (t + delta) b1 Hb1) as (b' & t' & Hrun & Hb' & Hwin').
    { eapply Forall_impl; [|exact Hwin1]. simpl. intros x Hx. lra. }
    exists b', t'. cbn [muestreo]. unfold bind. rewrite Hrun1. auto.
Qed.

(** A regular run of one tick or more at interval [delta], with
    [0 < delta <= VENTANA_SEGUNDOS], from empty buffers: every tick returns,
    the buffer is never empty, and the [n] entries it holds span at most the
    window,
    [(n - 1) * delta <= VENTANA_SEGUNDOS]: however long the run, the buffer
    stays within [VENTANA_SEGUNDOS / delta + 1] entries. *)
Theorem muestreo_acotado (cfg : config) (delta t0 : Q) (cargas : list (Q * Q)) :
  0 < delta ->
  delta <= VENTANA_SEGUNDOS cfg ->
  cargas <> [] ->
  exists b',
    muestreo cfg delta t0 cargas buffers_vacios = (Ok tt, b') /\
    en_paralelo b' /\
    (1 <= length (t_muestras b'))%nat /\
    inject_Z (Z.of_nat (length (t_muestras b') - 1)) * delta <= VENTANA_SEGUNDOS cfg.
Proof.
  intros Hd HW Hn. destruct cargas as [|[p m] r]; [congruence|].
  destruct (paso_primero cfg delta t0 p m) as [Hrun1 Hb1]; [lra|].
  destruct (muestreo_regimen_ventana cfg delta r Hd HW _ _ Hb1)
    as (b' & t' & Hrun & Hb' & Hwin).
  { repeat constructor. simpl. lra. }
  exists b'. cbn [muestreo]. unfold bind. rewrite Hrun1. split; [exact Hrun|].
  destruct Hb' as (Hpar & Hreg & ts0 & u & Hts & Hu). split; [exact Hpar|].
  rewrite Hts in *. rewrite length_app. cbn [length]. split; [lia|].
  replace (length ts0 + 1 - 1)%nat with (length ts0) by lia.
  destruct ts0 as [|a l].
  - cbn [length]. change (inject_Z (Z.of_nat 0)) with 0. lra.
  - cbn [app] in Hreg, Hwin. pose proof (regular_tramo delta a (l ++ [u]) Hreg) as Htr.
    rewrite last_last, length_app in Htr. cbn [length] in Htr.
    replace (length l + 1)%nat with (S (length l)) in Htr by lia.
    inversion Hwin as [|? ? Ha _]. cbn [length]. lra.
Qed.

Lemma muestreo_acotado_testigo :
  exists b',
    muestreo CONFIGURACION 25 100 [(10, 1); (20, 2); (30, 3); (40, 4); (50, 5)] buffers_vacios
    = (Ok tt, b') /\
    en_paralelo b' /\
    (1 <= length (t_muestras b'))%nat /\
    inject_Z (Z.of_nat (length (t_muestras b') - 1)) * 25 <= VENTANA_SEGUNDOS CONFIGURACION.
Proof.
  apply (muestreo_acotado CONFIGURACION 25 100 [(10, 1); (20, 2); (30, 3); (40, 4); (50, 5)]).
  - reflexivity.
  - orden.
  - discriminate.
Defined.

(** ** A logged line reads back as its four fields *)

Lemma digito_no_especial (c : ascii) : es_digito c = true -> es_especial c = false.
Proof.
  destruct c as [[|] [|] [|] [|] [|] [|] [|] [|]]; intros H;
    solve [reflexivity | discriminate H].
Qed.

Lemma sin_especiales_app (a b : string) :
  sin_especiales a = true -> sin_especiales b = true -> sin_especiales (a ++ b)%string = true.
Proof.
  intros Ha Hb. induction a as [|c a IH]; [exact Hb|].
  cbn [append sin_especiales] in *. apply andb_prop in Ha. destruct Ha as [Hc Ha].
  now rewrite Hc, IH.
Qed.

Lemma solo_digitos_sin_especiales (s : string) :
  solo_digitos s = true -> sin_especiales s = true.
Proof.
  induction s as [|c s IH]; intros H; [reflexivity|].
  cbn [solo_digitos sin_especiales] in *. apply andb_prop in H. destruct H as [Hc Hs].
  now rewrite (digito_no_especial c Hc), IH.
Qed.

Lemma digitos_sin_especiales (d : nat) (n : Z) : sin_especiales (digitos d n) = true.
Proof.
  apply solo_digitos_sin_especiales. apply digitos_forma.
Qed.

Lemma formato_f_sin_especiales (d : nat) (v : Q) : sin_especiales (formato_f d v) = true.
Proof.
  unfold formato_f. set (n := redondea _).
  destruct (entero_forma (n / 10 ^ Z.of_nat d)) as (c & r & He & Hc & Hr).
  repeat apply sin_especiales_app.
  - now destruct (Qltb v 0).
  - rewrite He. apply (solo_digitos_sin_especiales (String c r)).
    cbn [solo_digitos]. now rewrite Hc, Hr.
  - destruct d as [|d]; [reflexivity|].
    apply (sin_especiales_app "."); [reflexivity | apply digitos_sin_especiales].
Qed.

Lemma isoformat_seconds_sin_especiales (dt : datetime) :
  sin_especiales (isoformat_seconds dt) = true.
Proof.
  unfold isoformat_seconds.
  repeat (apply sin_especiales_app; [first [apply digitos_sin_especiales | reflexivity] |]).
  apply digitos_sin_especiales.
Qed.

Lemma parte_app (a s : string) :
  sin_especiales a = true ->
  parte (a ++ s)%string = (a ++ fst (parte s), snd (parte s))%string.
Proof.
  intros Ha. induction a as [|c a IH].
  - cbn [append]. now destruct (parte s).
  - cbn [append sin_especiales parte] in *. apply andb_prop in Ha. destruct Ha as [Hc Ha].
    rewrite (IH Ha). unfold es_especial in Hc.
    destruct (Ascii.eqb c ","); [discriminate Hc | reflexivity].
Qed.

Lemma append_vacio (a : string) : (a ++ "")%string = a.
Proof.
  induction a as [|c a IH]; [reflexivity|]. cbn [append]. now rewrite IH.
Qed.

Lemma campos_concat (a : string) (l : list string) :
  forallb sin_especiales (a :: l) = true ->
  campos (String.concat "," (a :: l)) = a :: l.
Proof.
  revert a. induction l as [|b l IH]; intros a H.
  - cbn [forallb] in H. apply andb_prop in H. destruct H as [Ha _].
    unfold campos. cbn [String.concat].
    rewrite <- (append_vacio a) at 1. rewrite (parte_app a "" Ha).
    cbn [parte fst snd]. now rewrite append_vacio.
  - change (forallb sin_especiales (a :: b :: l))
      with (sin_especiales a && forallb sin_especiales (b :: l)) in H.
    apply andb_prop in H. destruct H as [Ha Hl]. specialize (IH b Hl).
    change (String.concat "," (a :: b :: l))
      with (a ++ String "," (String.concat "," (b :: l)))%string.
    unfold campos in *. rewrite (parte_app a _ Ha). cbn [parte].
    destruct (parte (String.concat "," (b :: l))) as [h t].
    change (Ascii.eqb "," ",") with true. cbn [fst snd]. rewrite append_vacio.
    now rewrite IH.
Qed.

(** No field the script ever logs holds a comma, a double quote or a line
    break, so [csv.writer] writes the fields as they are, and cutting the
    written line at its commas gives back exactly the four fields; the same
    holds for the header. *)
Theorem linea_vuelve_a_campos :
  (forall (ahora : Q) (fecha : datetime) (carga_proc carga_mem : Q),
      let r := fila_de_muestra ahora fecha carga_proc carga_mem in
      forallb sin_especiales r = true /\
      campos (linea r) = r /\
      length (campos (linea r)) = 4%nat) /\
  forallb sin_especiales CABECERA = true /\
  campos (linea CABECERA) = CABECERA.
Proof.
  split; [|split; reflexivity].
  intros ahora fecha carga_proc carga_mem. cbv zeta.
  assert (H : forallb sin_especiales (fila_de_muestra ahora fecha carga_proc carga_mem) = true).
  { unfold fila_de_muestra. cbn [forallb].
    now rewrite !formato_f_sin_especiales, isoformat_seconds_sin_especiales. }
  split; [exact H|]. unfold linea, fila_de_muestra in *.
  rewrite (campos_concat _ _ H). split; reflexivity.
Qed.

(** ** A logged number reads back within half a unit of its last decimal *)

Lemma valor_digitos_app (a b : string) (acc : Z) :
  valor_digitos (a ++ b)%string acc = valor_digitos b (valor_digitos a acc).
Proof.
  revert acc. induction a as [|c a IH]; intros acc; [reflexivity|].
  cbn [append valor_digitos]. apply IH.
Qed.

Lemma valor_digito_digito (n : Z) : valor_digito (digito n) = (n mod 10)%Z.
Proof.
  unfold valor_digito, digito.
  assert (H : (0 <= n mod 10 < 10)%Z) by (apply Z.mod_pos_bound; lia).
  rewrite nat_ascii_embedding by lia. lia.
Qed.

Lemma valor_digitos_digitos (d : nat) (n acc : Z) :
  valor_digitos (digitos d n) acc = (acc * 10 ^ Z.of_nat d + n mod 10 ^ Z.of_nat d)%Z.
Proof.
  revert n acc. induction d as [|d IH]; intros n acc.
  - cbn [digitos valor_digitos]. change (10 ^ Z.of_nat 0)%Z with 1%Z.
    rewrite Z.mod_1_r. lia.
  - cbn [digitos]. rewrite valor_digitos_app, IH. cbn [valor_digitos].
    rewrite valor_digito_digito, Nat2Z.inj_succ, Z.pow_succ_r by lia.
    assert (Hp : (0 < 10 ^ Z.of_nat d)%Z) by (apply Z.pow_pos_nonneg; lia).
    rewrite (Z.rem_mul_r n 10 (10 ^ Z.of_nat d)) by lia. lia.
Qed.

Lemma valor_of_uint_acc (u : uint) (acc : positive) :
  valor_digitos (NilEmpty.string_of_uint u) (Z.pos acc) = Z.pos (Pos.of_uint_acc u acc).
Proof.
  revert acc. induction u; intros acc; cbn [NilEmpty.string_of_uint valor_digitos Pos.of_uint_acc];
    [reflexivity | ..];
    match goal with
    | |- context [valor_digito ?c] =>
        let v := eval vm_compute in (valor_digito c) in change (valor_digito c) with v
    end;
    rewrite <- IHu; f_equal; lia.
Qed.

Lemma valor_of_uint (u : uint) :
  valor_digitos (NilEmpty.string_of_uint u) 0 = Z.of_N (Pos.of_uint u).
Proof.
  induction u; cbn [NilEmpty.string_of_uint valor_digitos Pos.of_uint];
    [reflexivity | exact IHu | ..];
    match goal with
    | |- valor_digitos _ ?a = Z.of_N (N.pos (Pos.of_uint_acc _ ?p)) =>
        change a with (Z.pos p); apply valor_of_uint_acc
    end.
Qed.

Lemma valor_entero (z : Z) : (0 <= z)%Z -> valor_digitos (entero z) 0 = z.
Proof.
  intros Hz. unfold entero, NilZero.string_of_uint.
  pose proof (DecimalN.Unsigned.of_to (Z.to_N z)) as H. unfold N.of_uint in H.
  destruct (N.to_uint (Z.to_N z)) eqn:E;
    try (rewrite <- E, valor_of_uint, E, H; lia).
  change (valor_digitos "0" 0) with 0%Z. cbn [Pos.of_uint] in H. lia.
Qed.

Lemma lee_entero_digitos (a : string) (c : ascii) (r : string) (acc : Z) :
  solo_digitos a = true -> es_digito c = false ->
  lee_entero (a ++ String c r)%string acc = (valor_digitos a acc, String c r).
Proof.
  intros Ha Hc. revert acc. induction a as [|k a IH]; intros acc.
  - cbn [append lee_entero valor_digitos]. now rewrite Hc.
  - cbn [append lee_entero valor_digitos solo_digitos] in *.
    apply andb_prop in Ha. destruct Ha as [Hk Ha]. rewrite Hk. now apply IH.
Qed.

(** Rounding moves a number by at most one half, and keeps it non-negative. *)
Lemma redondea_cerca (q : Q) :
  0 <= q ->
  (0 <= redondea q)%Z /\
  inject_Z (redondea q) - q <= 1 # 2 /\ q - inject_Z (redondea q) <= 1 # 2.
Proof.
  intros Hq. unfold redondea.
  pose proof (Qfloor_le q) as Hlo. pose proof (Qlt_floor q) as Hhi.
  rewrite inject_Z_plus in Hhi. change (inject_Z 1) with 1 in Hhi.
  assert (Hf : (0 <= Qfloor q)%Z).
  { change 0%Z with (Qfloor 0). now apply Qfloor_resp_le. }
  destruct (q - inject_Z (Qfloor q) ?= 1 # 2) eqn:E.
  - apply Qeq_alt in E. destruct (Z.even (Qfloor q)).
    + split; [lia|]. split; lra.
    + split; [lia|]. rewrite inject_Z_plus. change (inject_Z 1) with 1. split; lra.
  - apply Qlt_alt in E. split; [lia|]. split; lra.
  - apply Qgt_alt in E. split; [lia|]. rewrite inject_Z_plus. change (inject_Z 1) with 1.
    split; lra.
Qed.

(** The number written with [d + 1] decimals reads back, and what is read
    differs from the number that was formatted by at most half a unit of the
    last decimal written: at most 0.0005 s on the epoch column and 0.005 on
    the two load columns. *)
Theorem formato_f_se_lee (d : nat) (v : Q) :
  exists q : Q,
    lee_decimal (formato_f (S d) v) = Some q /\
    Qabs (q - v) <= 1 / inject_Z (2 * 10 ^ Z.of_nat (S d)).
Proof.
  unfold formato_f.
  set (P := (10 ^ Z.of_nat (S d))%Z).
  assert (HP : (0 < P)%Z) by (apply Z.pow_pos_nonneg; lia).
  assert (Hp : 0 < inject_Z P) by (change 0 with (inject_Z 0); rewrite <- Zlt_Qlt; lia).
  set (a := Qabs v).
  assert (Ha : 0 <= a * inject_Z P).
  { apply Qmult_le_0_compat; [apply Qabs_nonneg | lra]. }
  destruct (redondea_cerca (a * inject_Z P) Ha) as (Hn0 & Hn1 & Hn2).
  set (n := redondea (a * inject_Z P)) in *.
  assert (He0 : (0 <= n / P)%Z) by (apply Z.div_pos; lia).
  destruct (entero_forma (n / P)) as (c & r & He & Hc & Hr).
  destruct (digitos_forma (S d) n) as [Hs Hl].
  assert (Hent : solo_digitos (String c r) = true) by (cbn [solo_digitos]; now rewrite Hc, Hr).
  assert (Hlee : lee_entero (String c r ++ String "." (digitos (S d) n))%string 0
                 = ((n / P)%Z, String "." (digitos (S d) n))).
  { rewrite lee_entero_digitos by (exact Hent || reflexivity).
    now rewrite <- He, valor_entero. }
  assert (Hneg : Ascii.eqb c "-" = false).
  { destruct (Ascii.eqb_spec c "-") as [->|]; [discriminate Hc | reflexivity]. }
  set (y := inject_Z (n / P)
            + inject_Z (valor_digitos (digitos (S d) n) 0)
              / inject_Z (10 ^ Z.of_nat (String.length (digitos (S d) n)))).
  assert (Hy : y * inject_Z P == inject_Z n).
  { unfold y. rewrite Hl, valor_digitos_digitos. fold P.
    rewrite (Z.div_mod n P) at 3 by lia.
    rewrite !inject_Z_plus, !inject_Z_mult. change (inject_Z 0) with 0. field. lra. }
  set (w := 1 / inject_Z (2 * P)).
  assert (Hw : w * inject_Z P == 1 # 2).
  { unfold w. rewrite inject_Z_mult. change (inject_Z 2) with 2. field. lra. }
  assert (Hya : - w <= y - a <= w).
  { split; apply (Qmult_le_r _ _ (inject_Z P) Hp); lra. }
  assert (Hlectura : forall neg : bool,
             lee_decimal ((if neg then "-" else "") ++ entero (n / P)
                          ++ "." ++ digitos (S d) n)%string
             = Some (if neg then - y else y)).
  { intros neg. rewrite He. unfold lee_decimal. destruct neg.
    - change ("-" ++ String c r ++ "." ++ digitos (S d) n)%string
        with (String "-" (String c r ++ String "." (digitos (S d) n))).
      cbv beta iota. change (Ascii.eqb "-" "-") with true. cbv beta iota.
      rewrite Hlee. change (Ascii.eqb "." ".") with true. rewrite Hs. reflexivity.
    - change ("" ++ String c r ++ "." ++ digitos (S d) n)%string
        with (String c (r ++ String "." (digitos (S d) n))).
      cbv beta iota. rewrite Hneg.
      change (String c (r ++ String "." (digitos (S d) n)))
        with (String c r ++ String "." (digitos (S d) n))%string.
      rewrite Hlee. change (Ascii.eqb "." ".") with true. rewrite Hs. reflexivity. }
  destruct (Qltb v 0) eqn:Ev.
  - exists (- y). split; [exact (Hlectura true)|].
    apply Qltb_true in Ev. assert (Eabs : a == - v) by (apply Qabs_neg; lra).
    apply Qabs_Qle_condition. fold w. lra.
  - exists y. split; [exact (Hlectura false)|].
    apply Qltb_false in Ev. assert (Eabs : a == v) by (now apply Qabs_pos).
    apply Qabs_Qle_condition. fold w. lra.
Qed.
